(** * simple_idempotency: the idempotency-key decorator, its settings,
      storages and locks, embedded from the Python sources.

    Python text (str) and bytes are both modelled by [string]: a text is held
    by its UTF-8 bytes, so that [str.encode()] is the identity.  Mutable
    state is passed explicitly as a [World]; exceptions are the [Raise] case
    of [Result]. *)

From stdpp Require Import base gmap strings list pretty.
From Stdlib Require Import ZArith Ascii.

#[local] Open Scope Z_scope.

(** ** Python values, exceptions *)

(** The plain values that occur as header values, user ids and positional
    arguments. *)
Inductive PyVal :=
  | PyNone
  | PyInt (z : Z)
  | PyStr (s : string).

(** [bool(v)]: the truth value Python gives [v] in [if not v]. *)
Definition truthy (v : PyVal) : bool :=
  match v with
  | PyNone => false
  | PyInt z => negb (z =? 0)
  | PyStr s => negb (String.eqb s "")
  end.

(** [str(v)]. *)
Definition py_str (v : PyVal) : string :=
  match v with
  | PyNone => "None"
  | PyInt z => pretty z
  | PyStr s => s
  end.

Inductive PyExc :=
  | TypeError
  | ValueError
  | AttributeError
  | ImportError
  | InvalidCacheBackendError
  | UnpicklingError
  | LockNotOwnedError
  | ViewError (msg : string).

Inductive Result (A : Type) :=
  | Ok (a : A)
  | Raise (e : PyExc).
Arguments Ok {A} a.
Arguments Raise {A} e.

Definition bind {A B} (r : Result A) (k : A -> Result B) : Result B :=
  match r with
  | Ok a => k a
  | Raise e => Raise e
  end.

(** ** Requests and responses *)

(** [request.user]: the object may or may not carry an [id] attribute. *)
Record UserObj := mkUser { user_id : option PyVal }.

(** The part of [HttpRequest] the package reads.  [user] is [None] when the
    request object has no [user] attribute at all. *)
Record Request := mkRequest {
  method : string;
  path_info : string;
  META : gmap string PyVal;
  body : string;
  user : option UserObj
}.

(** An [HttpResponse].  [rendering] tells whether the object has a [render]
    method (template responses have one, plain responses do not) and, before
    rendering, the content that rendering produces. *)
Inductive Rendering :=
  | NoRender
  | Unrendered (rendered_content : string)
  | Rendered.

Record Response := mkResponse {
  status_code : Z;
  headers : list (string * string);
  content : string;
  rendering : Rendering
}.

(** [hasattr(response, "render")]. *)
Definition hasattr_render (r : Response) : bool :=
  match rendering r with
  | NoRender => false
  | _ => true
  end.

(** [response.render()]: renders in place when not yet rendered, and returns
    the object itself. *)
Definition render (r : Response) : Response :=
  match rendering r with
  | Unrendered c => mkResponse (status_code r) (headers r) c Rendered
  | _ => r
  end.

(** A view set, as far as the decorator uses it. *)
Record ViewSet := mkViewSet {
  finalize_response : Request -> Response -> Result Response
}.

(** What [*args] and [**kwargs] may hold. *)
Inductive PyObj :=
  | ORequest (r : Request)
  | OViewSet (v : ViewSet)
  | OVal (v : PyVal).

(** ** utils.py *)

(** [is_success(code)]. *)
Definition is_success (code : Z) : bool :=
  (200 <=? code) && (code <=? 299).

Definition dquote : string := String "034"%char EmptyString.
Definition backslash : string := String "092"%char EmptyString.

(** [json.dumps] of a text: quotes and backslashes escaped, between quotes.
    The two messages of the decorator are plain ASCII without control
    characters, which is all this covers. *)
Fixpoint json_escape (s : string) : string :=
  match s with
  | EmptyString => EmptyString
  | String c rest =>
      if Ascii.eqb c "034"%char then backslash +:+ dquote +:+ json_escape rest
      else if Ascii.eqb c "092"%char then backslash +:+ backslash +:+ json_escape rest
      else String c (json_escape rest)
  end.

Definition json_string (s : string) : string := dquote +:+ json_escape s +:+ dquote.

(** [JsonResponse({"error": message}, status=code)]. *)
Definition JsonResponse_error (message : string) (code : Z) : Response :=
  mkResponse code [("Content-Type", "application/json")]
    ("{" +:+ json_string "error" +:+ ": " +:+ json_string message +:+ "}")
    NoRender.

(** ** The runtime the package runs on

    The handler's own state, the byte format of [pickle] and the SHA-256
    digest are supplied by the environment. *)
Class Runtime := {
  AppState : Type;
  Pickled : Type;
  pickle_dumps : string * Response -> Pickled;
  pickle_loads : Pickled -> Result (string * Response);
  sha256_hexdigest : string -> string
}.

(** A [hashlib.sha256()] object: the bytes fed so far. *)
Definition sha256_new : string := "".
Definition sha256_update (m data : string) : string := m +:+ data.

(** ** settings.py *)

Inductive StorageClass := MemoryKeyStorage | CacheKeyStorage.
Inductive LockClass := ThreadLock | RedisLock.

(** A function a setting can hold: the package's own, or one of the user. *)
Inductive KeyFunction :=
  | utils_get_cache_key
  | UserKeyFunction (f : Request -> PyVal -> Result string).

Inductive ResponseFunction :=
  | utils_bad_response
  | UserResponseFunction (f : string -> Result Response).

(** A setting that names a class or a function: either a dotted path (a
    [str], as in [DEFAULTS]) or the object itself. *)
Inductive Setting (C : Type) :=
  | ImportPath (p : string)
  | Obj (c : C).
Arguments ImportPath {C} p.
Arguments Obj {C} c.

(** [settings.IDEMPOTENCY_KEY_SETTINGS]: every entry is optional.  Durations
    ([timedelta]) are whole numbers of microseconds, as [timedelta] holds
    them; the clock of the cache counts in the same unit. *)
Record UserSettings := mkUserSettings {
  user_HEADER : option string;
  user_SAFE_METHODS : option (list string);
  user_STORAGE_CLASS : option (Setting StorageClass);
  user_STORAGE_CACHE_NAME : option string;
  user_STORAGE_CACHE_TIMEOUT : option Z;
  user_LOCK_CLASS : option (Setting LockClass);
  user_LOCK_TTL : option Z;
  user_GET_CACHE_KEY_FUNCTION : option (Setting KeyFunction);
  user_BAD_RESPONSE_FUNCTION : option (Setting ResponseFunction);
  user_BAD_RESPONSE_STATUS_CODE : option Z
}.

(** No entry at all: every setting takes its value from [DEFAULTS]. *)
Definition no_user_settings : UserSettings :=
  mkUserSettings None None None None None None None None None None.

Definition IMPORT_STRINGS : list string := ["STORAGE_CLASS"; "LOCK_CLASS"].

(** [import_string] on the dotted paths of the package. *)
Definition import_storage_class (p : string) : option StorageClass :=
  if String.eqb p "simple_idempotency.storages.MemoryKeyStorage" then Some MemoryKeyStorage
  else if String.eqb p "simple_idempotency.storages.CacheKeyStorage" then Some CacheKeyStorage
  else None.

Definition import_lock_class (p : string) : option LockClass :=
  if String.eqb p "simple_idempotency.locks.ThreadLock" then Some ThreadLock
  else if String.eqb p "simple_idempotency.locks.RedisLock" then Some RedisLock
  else None.

Definition import_key_function (p : string) : option KeyFunction :=
  if String.eqb p "simple_idempotency.utils.get_cache_key" then Some utils_get_cache_key
  else None.

Definition import_response_function (p : string) : option ResponseFunction :=
  if String.eqb p "simple_idempotency.utils.bad_response" then Some utils_bad_response
  else None.

(** [import_from_string(value, setting_name)]: [import_string] splits its
    argument with [rsplit], which only a [str] has. *)
Definition import_from_string {C} (import_string : string -> option C)
    (value : Setting C) : Result (Setting C) :=
  match value with
  | ImportPath p =>
      match import_string p with
      | Some c => Ok (Obj c)
      | None => Raise ImportError
      end
  | Obj _ => Raise AttributeError
  end.

(** [Settings.__getattr__(attr)] for the settings that name a class or a
    function: the user's value if present, else the default; imported only
    when [attr] is listed in [IMPORT_STRINGS]. *)
Definition getattr_setting {C} (attr : string) (import_string : string -> option C)
    (user_value : option (Setting C)) (default_value : Setting C) : Result (Setting C) :=
  let value := default default_value user_value in
  if bool_decide (attr ∈ IMPORT_STRINGS)
  then import_from_string import_string value
  else Ok value.

(** Calling the value of a setting: a [str] is not callable. *)
Definition call_setting {C} (v : Result (Setting C)) : Result C :=
  bind v (fun value =>
    match value with
    | Obj c => Ok c
    | ImportPath _ => Raise TypeError
    end).

Definition HEADER (s : UserSettings) : string :=
  default "HTTP_IDEMPOTENCY_KEY" (user_HEADER s).
Definition SAFE_METHODS (s : UserSettings) : list string :=
  default ["GET"; "HEAD"; "OPTIONS"; "TRACE"] (user_SAFE_METHODS s).
Definition STORAGE_CLASS (s : UserSettings) : Result (Setting StorageClass) :=
  getattr_setting "STORAGE_CLASS" import_storage_class (user_STORAGE_CLASS s)
    (ImportPath "simple_idempotency.storages.CacheKeyStorage").
Definition STORAGE_CACHE_NAME (s : UserSettings) : string :=
  default "default" (user_STORAGE_CACHE_NAME s).
(** [timedelta(minutes=10)]. *)
Definition STORAGE_CACHE_TIMEOUT (s : UserSettings) : Z :=
  default 600000000 (user_STORAGE_CACHE_TIMEOUT s).
Definition LOCK_CLASS (s : UserSettings) : Result (Setting LockClass) :=
  getattr_setting "LOCK_CLASS" import_lock_class (user_LOCK_CLASS s)
    (ImportPath "simple_idempotency.locks.ThreadLock").
(** [timedelta(minutes=5)]. *)
Definition LOCK_TTL (s : UserSettings) : Z :=
  default 300000000 (user_LOCK_TTL s).
Definition GET_CACHE_KEY_FUNCTION (s : UserSettings) : Result (Setting KeyFunction) :=
  getattr_setting "GET_CACHE_KEY_FUNCTION" import_key_function
    (user_GET_CACHE_KEY_FUNCTION s)
    (ImportPath "simple_idempotency.utils.get_cache_key").
Definition BAD_RESPONSE_FUNCTION (s : UserSettings) : Result (Setting ResponseFunction) :=
  getattr_setting "BAD_RESPONSE_FUNCTION" import_response_function
    (user_BAD_RESPONSE_FUNCTION s)
    (ImportPath "simple_idempotency.utils.bad_response").
Definition BAD_RESPONSE_STATUS_CODE (s : UserSettings) : Z :=
  default 400 (user_BAD_RESPONSE_STATUS_CODE s).

(** ** utils.py, continued *)

(** [bad_response(message)]. *)
Definition bad_response (s : UserSettings) (message : string) : Response :=
  JsonResponse_error message (BAD_RESPONSE_STATUS_CODE s).

(** [x.encode()]: only a [str] has the method. *)
Definition encode (v : PyVal) : Result string :=
  match v with
  | PyStr s => Ok s
  | _ => Raise AttributeError
  end.

(** [request.user]. *)
Definition getattr_user (request : Request) : Result UserObj :=
  match user request with
  | Some u => Ok u
  | None => Raise AttributeError
  end.

(** [str(getattr(request.user, "id", ""))], given [request.user]. *)
Definition user_id_text (u : UserObj) : string :=
  py_str (default (PyStr "") (user_id u)).

(** [get_cache_key(request, idempotency_key)]. *)
Definition get_cache_key `{Runtime} (request : Request) (idempotency_key : PyVal)
    : Result string :=
  let m := sha256_new in
  bind (encode idempotency_key) (fun k =>
  let m := sha256_update m k in
  let m := sha256_update m (path_info request) in
  let m := sha256_update m (method request) in
  bind (getattr_user request) (fun u =>
  let m := sha256_update m (user_id_text u) in
  Ok (sha256_hexdigest m))).

(** Calling the configured functions. *)
Definition call_key_function `{Runtime} (f : KeyFunction) (request : Request)
    (idempotency_key : PyVal) : Result string :=
  match f with
  | utils_get_cache_key => get_cache_key request idempotency_key
  | UserKeyFunction g => g request idempotency_key
  end.

Definition call_response_function (s : UserSettings) (f : ResponseFunction)
    (message : string) : Result Response :=
  match f with
  | utils_bad_response => Ok (bad_response s message)
  | UserResponseFunction g => g message
  end.

(** [idempotency_settings.BAD_RESPONSE_FUNCTION(message)]. *)
Definition BAD_RESPONSE (s : UserSettings) (message : string) : Result Response :=
  bind (call_setting (BAD_RESPONSE_FUNCTION s))
       (fun f => call_response_function s f message).

(** ** The shared state *)

(** A lock object: an [RLock] is known by its identity, a Redis lock by its
    name. *)
Inductive LockObj :=
  | RLockObj (id : nat)
  | RedisLockObj (name : string).

#[global] Instance LockObj_eq_dec : EqDecision LockObj.
Proof. solve_decision. Defined.

(** What the log records: a call of the wrapped view with the arguments it
    received, and the lock operations. *)
Inductive Event :=
  | CallView (args : list PyObj) (kwargs : list (string * PyObj))
  | Acquire (l : LockObj)
  | Release (l : LockObj).

(** An entry of a Django cache: the time from which it counts as expired,
    and the stored bytes. *)
Record CacheEntry `{Runtime} := mkCacheEntry {
  expiry : Z;
  payload : Pickled
}.
Arguments mkCacheEntry {_} expiry payload.

(** - [caches]: [django.core.cache.caches], by alias;
    - [held]: the locks that are held;
    - [rlocks]: how many [RLock] objects were created;
    - [app]: the state the wrapped view works on;
    - [log]: the events so far, oldest first. *)
Record World `{Runtime} := mkWorld {
  caches : gmap string (gmap string CacheEntry);
  held : list LockObj;
  rlocks : nat;
  app : AppState;
  log : list Event
}.
Arguments mkWorld {_} caches held rlocks app log.

Section Model.
Context `{Runtime}.

Definition set_caches (c : gmap string (gmap string CacheEntry)) (w : World) : World :=
  mkWorld c (held w) (rlocks w) (app w) (log w).
Definition set_held (h : list LockObj) (w : World) : World :=
  mkWorld (caches w) h (rlocks w) (app w) (log w).
Definition set_rlocks (n : nat) (w : World) : World :=
  mkWorld (caches w) (held w) n (app w) (log w).
Definition set_app (a : AppState) (w : World) : World :=
  mkWorld (caches w) (held w) (rlocks w) a (log w).
Definition record (e : Event) (w : World) : World :=
  mkWorld (caches w) (held w) (rlocks w) (app w) (log w ++ [e]).

(** ** Django's cache API: [cache.get(key)] and
    [cache.set(key, value, timeout)] at clock time [now].  The cache is
    taken to have room: a backend that is full may drop other entries on a
    [set], which is not modelled. *)
Definition cache_get (now : Z) (c : gmap string CacheEntry) (key : string)
    : option Pickled :=
  match c !! key with
  | Some e => if bool_decide (now < expiry e) then Some (payload e) else None
  | None => None
  end.

Definition cache_set (now : Z) (c : gmap string CacheEntry) (key : string)
    (value : Pickled) (timeout : Z) : gmap string CacheEntry :=
  <[key := mkCacheEntry (now + timeout) value]> c.

(** [caches[alias]]. *)
Definition caches_getitem (w : World) (alias : string)
    : Result (gmap string CacheEntry) :=
  match caches w !! alias with
  | Some c => Ok c
  | None => Raise InvalidCacheBackendError
  end.

(** ** storages.py *)

(** A storage object: a [MemoryKeyStorage] owns its dict, a
    [CacheKeyStorage] refers to a cache of the shared state. *)
Inductive Storage :=
  | MemoryStorage (_cache : gmap string (string * Response))
  | CacheStorage (alias : string).

(** [MemoryKeyStorage()] and [CacheKeyStorage()]. *)
Definition Storage_init (s : UserSettings) (c : StorageClass) (w : World)
    : Result Storage :=
  match c with
  | MemoryKeyStorage => Ok (MemoryStorage ∅)
  | CacheKeyStorage =>
      bind (caches_getitem w (STORAGE_CACHE_NAME s))
           (fun _ => Ok (CacheStorage (STORAGE_CACHE_NAME s)))
  end.

(** [storage.get(key)]. *)
Definition Storage_get (now : Z) (st : Storage) (key : string) (w : World)
    : Result (option (string * Response)) :=
  match st with
  | MemoryStorage d => Ok (d !! key)
  | CacheStorage alias =>
      bind (caches_getitem w alias) (fun c =>
        match cache_get now c key with
        | None => Ok None
        | Some value => bind (pickle_loads value) (fun v => Ok (Some v))
        end)
  end.

(** [storage.set(key, value)]: the storage object and the shared state after
    the call. *)
Definition Storage_set (now : Z) (s : UserSettings) (st : Storage) (key : string)
    (value : string * Response) (w : World) : Result (Storage * World) :=
  match st with
  | MemoryStorage d => Ok (MemoryStorage (<[key := value]> d), w)
  | CacheStorage _ =>
      let value_as_string := pickle_dumps value in
      bind (caches_getitem w (STORAGE_CACHE_NAME s)) (fun c =>
        Ok (st, set_caches
                  (<[STORAGE_CACHE_NAME s :=
                       cache_set now c key value_as_string (STORAGE_CACHE_TIMEOUT s)]>
                     (caches w)) w))
  end.

(** ** locks.py *)

(** [mutex.lock(name=...)]: [ThreadLock] ignores its arguments and returns
    a new [RLock]; [RedisLock] returns the Redis lock of that name.  The
    lease [RedisLock] gives it ([timeout=LOCK_TTL.total_seconds()]) counts
    from the acquisition; see [owned] and [leave] below. *)
Definition Lock_lock (c : LockClass) (name : string) (w : World) : LockObj * World :=
  match c with
  | ThreadLock => (RLockObj (rlocks w), set_rlocks (S (rlocks w)) w)
  | RedisLock => (RedisLockObj name, w)
  end.

(** Entering [with lock:].  [None]: the lock is held, the caller waits. *)
Definition acquire (l : LockObj) (w : World) : option World :=
  if bool_decide (l ∈ held w) then None
  else Some (record (Acquire l) (set_held (l :: held w) w)).

(** Leaving [with lock:] while the lock is still owned; [leave] below covers
    a lease that has run out. *)
Definition release (l : LockObj) (w : World) : World :=
  record (Release l) (set_held (filter (fun l' => l' ≠ l) (held w)) w).

(** ** decorators.py *)

(** The wrapped view: positional arguments, keyword arguments, its state. *)
Definition View : Type :=
  list PyObj -> list (string * PyObj) -> AppState -> Result Response * AppState.

Definition call_view (view_func : View) (args : list PyObj)
    (kwargs : list (string * PyObj)) (w : World) : Result Response * World :=
  let '(r, a) := view_func args kwargs (app w) in
  (r, record (CallView args kwargs) (set_app a w)).

(** [view_set, request = args if len(args) > 1 else (None, *args)]. *)
Definition unpack_args (args : list PyObj) : Result (option PyObj * PyObj) :=
  match args with
  | [request] => Ok (None, request)
  | [view_set; request] => Ok (Some view_set, request)
  | _ => Raise ValueError
  end.

(** [request.method]-style attribute access: only a request has them. *)
Definition as_request (o : PyObj) : Result Request :=
  match o with
  | ORequest r => Ok r
  | _ => Raise AttributeError
  end.

(** [*kwargs]: the keys of the dict, as positional arguments. *)
Definition star_keys (kwargs : list (string * PyObj)) : list PyObj :=
  map (fun kv => OVal (PyStr kv.1)) kwargs.

(** [view_set.finalize_response(request, response)] if there is a view
    set. *)
Definition finalize (view_set : option PyObj) (request : Request)
    (response : Response) : Result Response :=
  match view_set with
  | None => Ok response
  | Some (OViewSet v) => finalize_response v request response
  | Some _ => Raise AttributeError
  end.

Definition missing_key_message : string :=
  "Idempotency key is missing. Generate a unique key and specify it in the header".

Definition conflict_message : string :=
  "You've already used this idempotency key. Please, repeat the request with another idempotency key.".

(** [idempotency_settings.GET_CACHE_KEY_FUNCTION(request, key)]. *)
Definition GET_CACHE_KEY (s : UserSettings) (request : Request)
    (idempotency_key : PyVal) : Result string :=
  bind (call_setting (GET_CACHE_KEY_FUNCTION s))
       (fun f => call_key_function f request idempotency_key).

(** [idempotency_settings.LOCK_CLASS()]. *)
Definition LOCK (s : UserSettings) : Result LockClass :=
  call_setting (LOCK_CLASS s).

(** [idempotency_settings.STORAGE_CLASS()]. *)
Definition STORAGE (s : UserSettings) (w : World) : Result Storage :=
  bind (call_setting (STORAGE_CLASS s)) (fun c => Storage_init s c w).

(** The body of [with mutex.lock(...)], in its three phases. *)

(** Lines 39-40 and 63-72: create the storage, look the key up and, on a
    hit, compare the hashes.  [inl r]: the section ends with [r];
    [inr storage]: a miss. *)
Definition lookup (s : UserSettings) (now : Z) (key request_body_hash : string)
    (w : World) : Result Response + Storage :=
  match STORAGE s w with
  | Raise e => inl (Raise e)
  | Ok storage =>
      match Storage_get now storage key w with
      | Raise e => inl (Raise e)
      | Ok None => inr storage
      | Ok (Some (cached_request_body_hash, cached_response)) =>
          if String.eqb request_body_hash cached_request_body_hash
          then inl (Ok cached_response)
          else inl (BAD_RESPONSE s conflict_message)
      end
  end.

(** Lines 43-51 and 61: call the view, finalize for a view set, test the
    status.  [inl r]: the section ends with [r], nothing is stored;
    [inr response]: a success, to be stored. *)
Definition invoke (view_func : View) (args : list PyObj)
    (kwargs : list (string * PyObj)) (view_set : option PyObj) (request : Request)
    (w : World) : (Result Response + Response) * World :=
  match call_view view_func args kwargs w with
  | (Raise e, w1) => (inl (Raise e), w1)
  | (Ok response, w1) =>
      match finalize view_set request response with
      | Raise e => (inl (Raise e), w1)
      | Ok response =>
          if is_success (status_code response)
          then (inr response, w1)
          else (inl (Ok response), w1)
      end
  end.

(** Lines 52-61: render if the response can, store, return the response.
    [render] works in place, so the response returned is the rendered
    one. *)
Definition store (s : UserSettings) (now : Z) (storage : Storage)
    (key request_body_hash : string) (response : Response) (w : World)
    : Result Response * World :=
  let response := if hasattr_render response then render response else response in
  match Storage_set now s storage key (request_body_hash, response) w with
  | Raise e => (Raise e, w)
  | Ok (_, w1) => (Ok response, w1)
  end.

Definition locked_section (s : UserSettings) (view_func : View) (now : Z)
    (args : list PyObj) (kwargs : list (string * PyObj))
    (view_set : option PyObj) (request : Request)
    (key request_body_hash : string) (w : World) : Result Response * World :=
  match lookup s now key request_body_hash w with
  | inl r => (r, w)
  | inr storage =>
      match invoke view_func args kwargs view_set request w with
      | (inl r, w1) => (r, w1)
      | (inr response, w1) => store s now storage key request_body_hash response w1
      end
  end.

(** Line 14: the view set and the request among the arguments. *)
Definition view_set_and_request (args : list PyObj)
    : Result (option PyObj * Request) :=
  bind (unpack_args args) (fun '(view_set, o) =>
    bind (as_request o) (fun request => Ok (view_set, request))).

(** [request.META.get(HEADER)]. *)
Definition key_from_header (s : UserSettings) (request : Request) : PyVal :=
  default PyNone (META request !! HEADER s).

(** [wrapped_view] called with [args] and [kwargs] at clock time [now].
    [None]: the call waits for a lock that is held. *)
Definition wrapped_view (s : UserSettings) (view_func : View) (now : Z)
    (args : list PyObj) (kwargs : list (string * PyObj)) (w : World)
    : option (Result Response * World) :=
  match view_set_and_request args with
  | Raise e => Some (Raise e, w)
  | Ok (view_set, request) =>
  if bool_decide (method request ∈ SAFE_METHODS s) then
    Some (call_view view_func (args ++ star_keys kwargs) [] w)
  else
    let idempotency_key_from_header := key_from_header s request in
    if negb (truthy idempotency_key_from_header) then
      Some (BAD_RESPONSE s missing_key_message, w)
    else
      match GET_CACHE_KEY s request idempotency_key_from_header with
      | Raise e => Some (Raise e, w)
      | Ok key =>
      let request_body_hash := sha256_hexdigest (body request) in
      match LOCK s with
      | Raise e => Some (Raise e, w)
      | Ok mutex =>
      let '(l, w1) := Lock_lock mutex ("Idempotency_" +:+ key) w in
      match acquire l w1 with
      | None => None
      | Some w2 =>
          let '(r, w3) :=
            locked_section s view_func now args kwargs view_set request
              key request_body_hash w2 in
          Some (r, release l w3)
      end
      end
      end
  end.

(** ** The time a call takes, and the lease of the Redis lock

    [RedisLock.lock] passes [timeout=LOCK_TTL.total_seconds()] (locks.py,
    line 41): Redis keeps the key of the lock for that long from the
    acquisition and drops it then, whether or not the holder has left
    [with].  Leaving [with] calls the [release] of redis-py, which raises
    LockNotOwnedError when the key is no longer there, and an exception
    raised on leaving [with] takes the place of what the body returned or
    raised.  An [RLock] has no lease.

    [wrapped_view] above reads the clock once: no time passes during the
    call.  Below the clock is read twice: at [now] the lock is acquired and
    the key looked up (lines 37-40); at [later] the view has returned, the
    response is stored and [with] is left (lines 52-61 and the exit). *)

(** redis-py hands the lease to Redis in whole milliseconds and Redis
    accepts one millisecond or more; the clock counts microseconds. *)
Definition whole_milliseconds (d : Z) : Prop := 0 < d /\ (1000 | d).

(** Does the lock [l], acquired at [entered], still belong to its holder at
    [now]?  (redis-py: [Lock.owned()].) *)
Definition owned (s : UserSettings) (l : LockObj) (entered now : Z) : bool :=
  match l with
  | RLockObj _ => true
  | RedisLockObj _ => bool_decide (now < entered + LOCK_TTL s)
  end.

(** A lock whose lease has run out is no longer held; nobody released
    it. *)
Definition expire (l : LockObj) (w : World) : World :=
  set_held (filter (fun l' => l' ≠ l) (held w)) w.

(** Leaving [with lock:] at [now], the lock acquired at [entered] and the
    body ended with [r]. *)
Definition leave (s : UserSettings) (l : LockObj) (entered now : Z)
    (r : Result Response) (w : World) : Result Response * World :=
  if owned s l entered now then (r, release l w)
  else (Raise LockNotOwnedError, expire l w).

(** The body of [with mutex.lock(...)]: the lookup at [now], the storing at
    [later]. *)
Definition timed_section (s : UserSettings) (view_func : View) (now later : Z)
    (args : list PyObj) (kwargs : list (string * PyObj))
    (view_set : option PyObj) (request : Request)
    (key request_body_hash : string) (w : World) : Result Response * World :=
  match lookup s now key request_body_hash w with
  | inl r => (r, w)
  | inr storage =>
      match invoke view_func args kwargs view_set request w with
      | (inl r, w1) => (r, w1)
      | (inr response, w1) => store s later storage key request_body_hash response w1
      end
  end.

(** [wrapped_view] called at [now], the locked section left at [later].
    [None]: the call waits for a lock that is held. *)
Definition timed_wrapped_view (s : UserSettings) (view_func : View) (now later : Z)
    (args : list PyObj) (kwargs : list (string * PyObj)) (w : World)
    : option (Result Response * World) :=
  match view_set_and_request args with
  | Raise e => Some (Raise e, w)
  | Ok (view_set, request) =>
  if bool_decide (method request ∈ SAFE_METHODS s) then
    Some (call_view view_func (args ++ star_keys kwargs) [] w)
  else
    let idempotency_key_from_header := key_from_header s request in
    if negb (truthy idempotency_key_from_header) then
      Some (BAD_RESPONSE s missing_key_message, w)
    else
      match GET_CACHE_KEY s request idempotency_key_from_header with
      | Raise e => Some (Raise e, w)
      | Ok key =>
      let request_body_hash := sha256_hexdigest (body request) in
      match LOCK s with
      | Raise e => Some (Raise e, w)
      | Ok mutex =>
      let '(l, w1) := Lock_lock mutex ("Idempotency_" +:+ key) w in
      match acquire l w1 with
      | None => None
      | Some w2 =>
          let '(r, w3) :=
            timed_section s view_func now later args kwargs view_set request
              key request_body_hash w2 in
          Some (leave s l now later r w3)
      end
      end
      end
  end.

(** ** Requests in parallel

    A call that has reached line 36 runs the rest of [wrapped_view] in five
    steps; calls in parallel take their steps in any order.  The clock
    stands still during a run. *)

(** What lines 14-33 leave for the rest of the call. *)
Record Job := mkJob {
  job_args : list PyObj;
  job_kwargs : list (string * PyObj);
  job_view_set : option PyObj;
  job_request : Request;
  job_key : string;
  job_body_hash : string
}.

(** Lines 14-33: [Some job] when the call goes on to the lock. *)
Definition prepare (s : UserSettings) (args : list PyObj)
    (kwargs : list (string * PyObj)) : option Job :=
  match view_set_and_request args with
  | Raise _ => None
  | Ok (view_set, request) =>
      if bool_decide (method request ∈ SAFE_METHODS s) then None
      else if negb (truthy (key_from_header s request)) then None
      else
        match GET_CACHE_KEY s request (key_from_header s request) with
        | Raise _ => None
        | Ok key =>
            Some (mkJob args kwargs view_set request key
                    (sha256_hexdigest (body request)))
        end
  end.

(** Where a call stands. *)
Inductive Thread :=
  | AtLock
  | AtLookup (l : LockObj)
  | AtInvoke (l : LockObj) (storage : Storage)
  | AtStore (l : LockObj) (storage : Storage) (response : Response)
  | AtExit (l : LockObj) (r : Result Response)
  | Finished (r : Result Response).

(** One step of a call.  [None]: the call cannot move (it waits for the
    lock, or it has finished). *)
Definition thread_step (s : UserSettings) (view_func : View) (now : Z)
    (j : Job) (t : Thread) (w : World) : option (Thread * World) :=
  match t with
  | AtLock =>
      match LOCK s with
      | Raise e => Some (Finished (Raise e), w)
      | Ok mutex =>
          let '(l, w1) := Lock_lock mutex ("Idempotency_" +:+ job_key j) w in
          match acquire l w1 with
          | None => None
          | Some w2 => Some (AtLookup l, w2)
          end
      end
  | AtLookup l =>
      match lookup s now (job_key j) (job_body_hash j) w with
      | inl r => Some (AtExit l r, w)
      | inr storage => Some (AtInvoke l storage, w)
      end
  | AtInvoke l storage =>
      match invoke view_func (job_args j) (job_kwargs j) (job_view_set j)
              (job_request j) w with
      | (inl r, w1) => Some (AtExit l r, w1)
      | (inr response, w1) => Some (AtStore l storage response, w1)
      end
  | AtStore l storage response =>
      let '(r, w1) := store s now storage (job_key j) (job_body_hash j) response w in
      Some (AtExit l r, w1)
  | AtExit l r => Some (Finished r, release l w)
  | Finished _ => None
  end.

(** A call on its own: step until it has finished. *)
Fixpoint run_thread (fuel : nat) (s : UserSettings) (view_func : View) (now : Z)
    (j : Job) (t : Thread) (w : World) : option (Result Response * World) :=
  match t with
  | Finished r => Some (r, w)
  | _ =>
      match fuel with
      | O => None
      | S fuel' =>
          match thread_step s view_func now j t w with
          | None => None
          | Some (t', w') => run_thread fuel' s view_func now j t' w'
          end
      end
  end.

(** The calls in flight, and the step of the [i]-th of them. *)
Definition pool_step (s : UserSettings) (view_func : View) (now : Z) (i : nat)
    (st : World * list (Job * Thread)) : option (World * list (Job * Thread)) :=
  let '(w, pool) := st in
  match pool !! i with
  | None => None
  | Some (j, t) =>
      match thread_step s view_func now j t w with
      | None => None
      | Some (t', w') => Some (w', <[i := (j, t')]> pool)
      end
  end.

(** A schedule names the call that moves next. *)
Fixpoint run_schedule (s : UserSettings) (view_func : View) (now : Z)
    (schedule : list nat) (st : World * list (Job * Thread))
    : option (World * list (Job * Thread)) :=
  match schedule with
  | [] => Some st
  | i :: rest =>
      match pool_step s view_func now i st with
      | None => None
      | Some st' => run_schedule s view_func now rest st'
      end
  end.

(** The responses of the calls that have finished. *)
Definition responses (pool : list (Job * Thread)) : list (option (Result Response)) :=
  map (fun jt => match jt.2 with Finished r => Some r | _ => None end) pool.

(** How often the log shows the view called. *)
Definition is_call (e : Event) : bool :=
  match e with
  | CallView _ _ => true
  | _ => false
  end.

Definition view_calls (l : list Event) : nat := length (List.filter is_call l).

(** ** Notions the properties are stated with *)

(** The lock object line 37 obtains, and the state once it is entered. *)
Definition lock_of (mutex : LockClass) (key : string) (w : World) : LockObj :=
  (Lock_lock mutex ("Idempotency_" +:+ key) w).1.

Definition entered (mutex : LockClass) (key : string) (w : World) : World :=
  let '(l, w1) := Lock_lock mutex ("Idempotency_" +:+ key) w in
  record (Acquire l) (set_held (l :: held w1) w1).

(** Every [RLock] that is held was created earlier. *)
Definition rlocks_fresh (w : World) : Prop :=
  forall i, RLockObj i ∈ held w -> (i < rlocks w)%nat.

(** What the view, followed by [finalize_response] for a view set, answers
    in state [a]. *)
Definition view_outcome (view_func : View) (args : list PyObj)
    (kwargs : list (string * PyObj)) (view_set : option PyObj)
    (request : Request) (a : AppState) : Result Response :=
  bind (view_func args kwargs a).1 (finalize view_set request).

(** The outcome is an exception or a status outside 200-299. *)
Definition failed (o : Result Response) : Prop :=
  match o with
  | Raise _ => True
  | Ok response => is_success (status_code response) = false
  end.

(** The response as it is stored and returned on a success. *)
Definition rendered (response : Response) : Response :=
  if hasattr_render response then render response else response.

(** Django's [AnonymousUser], the user of a request that is not logged in:
    the class sets [id = None]. *)
Definition AnonymousUser : UserObj := mkUser (Some PyNone).

(** A caller without an authenticated identity: the user object has no
    [id], or its [id] is [None]. *)
Definition unauthenticated (u : UserObj) : Prop :=
  user_id u = None \/ user_id u = Some PyNone.


(** ** Requests in parallel, in time

    Every step of a call comes with the reading of the clock at which it is
    taken.  Redis holds, for the name of each lock that is set, the call
    that set it and the time its lease ends.  Once that time has come the
    name can be set by another call, and the call that held the lock finds
    out when it leaves (redis-py compares the token it stored with the one
    in Redis; every call has a lock object, hence a token, of its own). *)

(** Is the lock of that name set, its lease still running? *)
Definition lease_running (now : Z) (redis : gmap string (nat * Z)) (name : string) : bool :=
  match redis !! name with
  | Some (_, ends) => bool_decide (now < ends)
  | None => false
  end.

(** Call [i] enters [with lock:] at [now].  [None]: the call waits. *)
Definition timed_acquire (s : UserSettings) (now : Z) (i : nat) (l : LockObj)
    (st : World * gmap string (nat * Z)) : option (World * gmap string (nat * Z)) :=
  match l with
  | RLockObj _ =>
      match acquire l st.1 with
      | Some w => Some (w, st.2)
      | None => None
      end
  | RedisLockObj name =>
      if lease_running now st.2 name then None
      else Some (record (Acquire l)
                   (set_held (l :: filter (fun l' => l' ≠ l) (held st.1)) st.1),
                 <[name := (i, now + LOCK_TTL s)]> st.2)
  end.

(** Call [i] leaves [with lock:] at [now], the body ended with [r].  When
    its lease has run out the call gets LockNotOwnedError; the lock may by
    then belong to another call, which keeps it. *)
Definition timed_leave (now : Z) (i : nat) (l : LockObj) (r : Result Response)
    (st : World * gmap string (nat * Z)) : Result Response * (World * gmap string (nat * Z)) :=
  match l with
  | RLockObj _ => (r, (release l st.1, st.2))
  | RedisLockObj name =>
      match st.2 !! name with
      | Some (holder, ends) =>
          if bool_decide (holder = i) then
            if bool_decide (now < ends)
            then (r, (release l st.1, delete name st.2))
            else (Raise LockNotOwnedError, (expire l st.1, delete name st.2))
          else (Raise LockNotOwnedError, st)
      | None => (Raise LockNotOwnedError, st)
      end
  end.

(** One step of call [i], taken at [now]. *)
Definition timed_thread_step (s : UserSettings) (view_func : View) (now : Z)
    (i : nat) (j : Job) (t : Thread) (st : World * gmap string (nat * Z))
    : option (Thread * (World * gmap string (nat * Z))) :=
  match t with
  | AtLock =>
      match LOCK s with
      | Raise e => Some (Finished (Raise e), st)
      | Ok mutex =>
          let '(l, w1) := Lock_lock mutex ("Idempotency_" +:+ job_key j) st.1 in
          match timed_acquire s now i l (w1, st.2) with
          | None => None
          | Some st2 => Some (AtLookup l, st2)
          end
      end
  | AtLookup l =>
      match lookup s now (job_key j) (job_body_hash j) st.1 with
      | inl r => Some (AtExit l r, st)
      | inr storage => Some (AtInvoke l storage, st)
      end
  | AtInvoke l storage =>
      match invoke view_func (job_args j) (job_kwargs j) (job_view_set j)
              (job_request j) st.1 with
      | (inl r, w1) => Some (AtExit l r, (w1, st.2))
      | (inr response, w1) => Some (AtStore l storage response, (w1, st.2))
      end
  | AtStore l storage response =>
      let '(r, w1) :=
        store s now storage (job_key j) (job_body_hash j) response st.1 in
      Some (AtExit l r, (w1, st.2))
  | AtExit l r =>
      let '(r', st') := timed_leave now i l r st in
      Some (Finished r', st')
  | Finished _ => None
  end.

(** A call on its own, with the two clock readings of [timed_wrapped_view]:
    the steps up to the call of the view are taken at [now], the storing and
    the leaving at [later]. *)
Definition step_time (now later : Z) (t : Thread) : Z :=
  match t with
  | AtStore _ _ _ | AtExit _ _ => later
  | _ => now
  end.

Fixpoint timed_run_thread (fuel : nat) (s : UserSettings) (view_func : View)
    (now later : Z) (i : nat) (j : Job) (t : Thread) (st : World * gmap string (nat * Z))
    : option (Result Response * (World * gmap string (nat * Z))) :=
  match t with
  | Finished r => Some (r, st)
  | _ =>
      match fuel with
      | O => None
      | S fuel' =>
          match timed_thread_step s view_func (step_time now later t) i j t st with
          | None => None
          | Some (t', st') => timed_run_thread fuel' s view_func now later i j t' st'
          end
      end
  end.

(** The calls in flight; a schedule names the call that moves next and the
    time at which it does. *)
Definition timed_pool_step (s : UserSettings) (view_func : View) (i : nat) (now : Z)
    (state : (World * gmap string (nat * Z)) * list (Job * Thread))
    : option ((World * gmap string (nat * Z)) * list (Job * Thread)) :=
  match state.2 !! i with
  | None => None
  | Some (j, t) =>
      match timed_thread_step s view_func now i j t state.1 with
      | None => None
      | Some (t', st') => Some (st', <[i := (j, t')]> state.2)
      end
  end.

Fixpoint timed_run_schedule (s : UserSettings) (view_func : View)
    (schedule : list (nat * Z)) (state : (World * gmap string (nat * Z)) * list (Job * Thread))
    : option ((World * gmap string (nat * Z)) * list (Job * Thread)) :=
  match schedule with
  | [] => Some state
  | (i, now) :: rest =>
      match timed_pool_step s view_func i now state with
      | None => None
      | Some state' => timed_run_schedule s view_func rest state'
      end
  end.

(** A time at which neither a lease taken at [start] or later has run out,
    nor a record stored at [start] or later has expired. *)
Definition in_window (s : UserSettings) (start now : Z) : Prop :=
  start <= now /\ now < start + LOCK_TTL s /\ now < start + STORAGE_CACHE_TIMEOUT s.

(** ** The life of a fresh key under a lock that is keyed by name

    [NoRecord]: the view has not been called; [Called response]: the view
    has answered [response], not stored yet; [Stored r]: the record holds
    [r]. *)
Inductive Stage :=
  | NoRecord
  | Called (response : Response)
  | Stored (r : Response).

(** Where a call that is not in the locked section may stand. *)
Definition outside_ok (stage : Stage) (t : Thread) : Prop :=
  match stage with
  | Stored r => t = AtLock \/ t = Finished (Ok r)
  | _ => t = AtLock
  end.

(** Where the call in the locked section may stand. *)
Definition inside_ok (l : LockObj) (st : Storage) (stage : Stage) (t : Thread) : Prop :=
  match stage with
  | NoRecord => t = AtLookup l \/ t = AtInvoke l st
  | Called response => t = AtStore l st response
  | Stored r => t = AtLookup l \/ t = AtExit l (Ok r)
  end.

(** What the shared state shows at each stage; [base] counts the calls of
    the view before the run, which begins at [start]. *)
Definition world_ok (s : UserSettings) (start : Z) (j : Job) (st : Storage)
    (base : nat) (stage : Stage) (w : World) : Prop :=
  match stage with
  | NoRecord =>
      lookup s start (job_key j) (job_body_hash j) w = inr st
      /\ view_calls (log w) = base
  | Called response =>
      lookup s start (job_key j) (job_body_hash j) w = inr st
      /\ view_calls (log w) = S base
      /\ is_success (status_code response) = true
  | Stored r =>
      (forall now, in_window s start now ->
         lookup s now (job_key j) (job_body_hash j) w = inl (Ok r))
      /\ view_calls (log w) = S base
  end.

(** The invariant of the run: either the lock is free and every call is
    outside, or the lock is held on a lease that outlasts the window and
    exactly one call is inside. *)
Definition single_flight (s : UserSettings) (start : Z) (j : Job) (st : Storage)
    (base : nat) (state : (World * gmap string (nat * Z)) * list (Job * Thread)) : Prop :=
  let name := "Idempotency_" +:+ job_key j in
  exists stage,
    world_ok s start j st base stage state.1.1
    /\ ((state.1.2 !! name = None
         /\ (forall response, stage ≠ Called response)
         /\ forall k jt, state.2 !! k = Some jt ->
              jt.1 = j /\ outside_ok stage jt.2)
        \/ (exists i t ends,
              state.1.2 !! name = Some (i, ends)
              /\ start + LOCK_TTL s <= ends
              /\ state.2 !! i = Some (j, t)
              /\ inside_ok (RedisLockObj name) st stage t
              /\ forall k jt, k ≠ i -> state.2 !! k = Some jt ->
                   jt.1 = j /\ outside_ok stage jt.2)).


End Model.

(** ** A concrete setting: an order service

    Used by the examples below: the view counts the orders it has created,
    pickling keeps the pair as it is, and the digest is a stand-in that
    keeps its input readable. *)
Definition order_runtime : Runtime := {|
  AppState := nat;
  Pickled := string * Response;
  pickle_dumps := fun v => v;
  pickle_loads := fun v => Ok v;
  sha256_hexdigest := fun data => "sha256(" +:+ data +:+ ")"
|}.

(** Creates an order and answers 201 with its number. *)
Definition create_order : @View order_runtime :=
  fun _ _ orders =>
    (Ok (mkResponse 201 [] ("order " +:+ pretty (42 + Z.of_nat orders)) NoRender),
     S orders).

(** Refuses with 422 and creates nothing. *)
Definition reject_order : @View order_runtime :=
  fun _ _ orders => (Ok (mkResponse 422 [] "invalid order" NoRender), orders).

(** Raises and creates nothing. *)
Definition crash_order : @View order_runtime :=
  fun _ _ orders => (Raise (ViewError "boom"), orders).

(** [def order_detail(request, pk)]: answers with the order named by [pk],
    bound by keyword or by position. *)
Definition order_detail : @View order_runtime :=
  fun args kwargs orders =>
    match args, kwargs with
    | [ORequest _], [(name, OVal pk)] =>
        if String.eqb name "pk"
        then (Ok (mkResponse 200 [] ("order " +:+ py_str pk) NoRender), orders)
        else (Raise TypeError, orders)
    | [ORequest _; OVal pk], [] =>
        (Ok (mkResponse 200 [] ("order " +:+ py_str pk) NoRender), orders)
    | _, _ => (Raise TypeError, orders)
    end.

Definition post_order (body : string) : Request :=
  mkRequest "POST" "/orders" {["HTTP_IDEMPOTENCY_KEY" := PyStr "abc123"]} body
    (Some (mkUser (Some (PyStr "u1")))).

Definition post_without_key : Request :=
  mkRequest "POST" "/orders" ∅ "item=x" (Some (mkUser (Some (PyStr "u1")))).

Definition post_empty_key : Request :=
  mkRequest "POST" "/orders" {["HTTP_IDEMPOTENCY_KEY" := PyStr ""]} "item=x"
    (Some (mkUser (Some (PyStr "u1")))).

Definition get_order : Request :=
  mkRequest "GET" "/orders/7" ∅ "" (Some (mkUser (Some (PyStr "u1")))).

(** Settings that hand the package its own two functions as objects; the
    rest is left to [DEFAULTS]. *)
Definition function_settings : UserSettings :=
  mkUserSettings None None None None None None None
    (Some (Obj utils_get_cache_key)) (Some (Obj utils_bad_response)) None.

(** The same with the in-process storage. *)
Definition memory_settings : UserSettings :=
  mkUserSettings None None
    (Some (ImportPath "simple_idempotency.storages.MemoryKeyStorage"))
    None None None None
    (Some (Obj utils_get_cache_key)) (Some (Obj utils_bad_response)) None.

(** The same with the Redis lock. *)
Definition redis_settings : UserSettings :=
  mkUserSettings None None None None None
    (Some (ImportPath "simple_idempotency.locks.RedisLock")) None
    (Some (Obj utils_get_cache_key)) (Some (Obj utils_bad_response)) None.

(** Only the key function is set; the response function is the default. *)
Definition key_function_settings : UserSettings :=
  mkUserSettings None None None None None None None
    (Some (Obj utils_get_cache_key)) None None.

(** A fresh process: the cache [default] is empty, no lock is held. *)
Definition fresh_world : @World order_runtime :=
  @mkWorld order_runtime {["default" := ∅]} [] 0%nat 0%nat [].

(** What lines 14-33 make of [post_order "item=x"] and [post_order "item=y"]
    under the settings above. *)
Definition order_job (body : string) : Job :=
  mkJob [ORequest (post_order body)] [] None (post_order body)
    "sha256(abc123/ordersPOSTu1)" ("sha256(" +:+ body +:+ ")").

Definition order_42 : Response := mkResponse 201 [] "order 42" NoRender.

(** A process whose cache holds the record of [post_order "item=x"], stored
    at time 0 with the default timeout. *)
Definition world_with_record : @World order_runtime :=
  @mkWorld order_runtime
    {["default" :=
        {["sha256(abc123/ordersPOSTu1)" :=
            @mkCacheEntry order_runtime 600000000 ("sha256(item=x)", order_42)]}]}
    [] 1%nat 1%nat [].


(** ** settings.py: the [Settings] object and its cache

    The typed accessors above give the value a setting resolves to; here is
    the object that holds them, with the state it keeps between reads. *)

(** The values a setting can hold: a [str], a tuple of [str], an [int], a
    [timedelta] (in microseconds), or some other object, known by its
    qualified name (a class or a function). *)
Inductive SettingVal :=
  | SStr (s : string)
  | STuple (l : list string)
  | SInt (z : Z)
  | STimedelta (microseconds : Z)
  | SObject (qualified_name : string).

Definition SETTINGS_NAME : string := "IDEMPOTENCY_KEY_SETTINGS".

Definition DEFAULTS : gmap string SettingVal :=
  list_to_map [
    ("HEADER", SStr "HTTP_IDEMPOTENCY_KEY");
    ("SAFE_METHODS", STuple ["GET"; "HEAD"; "OPTIONS"; "TRACE"]);
    ("STORAGE_CLASS", SStr "simple_idempotency.storages.CacheKeyStorage");
    ("STORAGE_CACHE_NAME", SStr "default");
    ("STORAGE_CACHE_TIMEOUT", STimedelta 600000000);
    ("LOCK_CLASS", SStr "simple_idempotency.locks.ThreadLock");
    ("LOCK_REDIS_LOCATION", SStr "redis://localhost:6379/0");
    ("LOCK_TTL", STimedelta 300000000);
    ("GET_CACHE_KEY_FUNCTION", SStr "simple_idempotency.utils.get_cache_key");
    ("BAD_RESPONSE_FUNCTION", SStr "simple_idempotency.utils.bad_response");
    ("BAD_RESPONSE_STATUS_CODE", SInt 400)
  ].

(** [import_from_string(value, setting_name)], given the dotted paths that
    can be imported: a path gives the object of that name, another [str]
    gives ImportError, and a value that is no [str] has no [rsplit]. *)
Definition import_setting (importable : gset string) (value : SettingVal)
    : Result SettingVal :=
  match value with
  | SStr p => if bool_decide (p ∈ importable) then Ok (SObject p) else Raise ImportError
  | _ => Raise AttributeError
  end.

(** Django's settings as a read finds them: the dict objects that exist, by
    address, with their present contents, and the address of the dict that
    [settings.IDEMPOTENCY_KEY_SETTINGS] is bound to, if the setting is
    defined.  Changing a dict in place changes [dicts]; assigning another
    dict to the setting changes [bound]. *)
Record Django := mkDjango {
  dicts : gmap nat (gmap string SettingVal);
  bound : option nat
}.

(** What [_user_settings] refers to: a dict of Django's settings, or the
    empty dict that line 64 creates when the setting is not defined (an
    object of its own, which nothing else refers to). *)
Inductive DictRef :=
  | DjangoDict (address : nat)
  | OwnDict.

(** [getattr(settings, SETTINGS_NAME, {})]: the dict itself, not a copy. *)
Definition getattr_settings (django : Django) : DictRef :=
  match bound django with
  | Some address => DjangoDict address
  | None => OwnDict
  end.

(** The present contents of the dict a reference leads to. *)
Definition contents (django : Django) (r : DictRef) : gmap string SettingVal :=
  match r with
  | DjangoDict address => default ∅ (dicts django !! address)
  | OwnDict => ∅
  end.

(** The attributes of a [Settings] object: the set [_cached_attrs], the
    settings stored on the object by [setattr], and [_user_settings] once it
    has been read ([None]: the object has no such attribute). *)
Record Settings := mkSettings {
  _cached_attrs : gset string;
  attributes : gmap string SettingVal;
  _user_settings : option DictRef
}.

(** [Settings()]. *)
Definition Settings_init : Settings := mkSettings ∅ ∅ None.

(** The property [user_settings]: the reference the object holds; on the
    first use, the one to Django's dict as the setting is bound then. *)
Definition Settings_user_settings (django : Django) (o : Settings)
    : DictRef * Settings :=
  match _user_settings o with
  | Some r => (r, o)
  | None =>
      let r := getattr_settings django in
      (r, mkSettings (_cached_attrs o) (attributes o) (Some r))
  end.

(** [Settings.__getattr__(attr)]: [self.user_settings[attr]] reads the dict
    as it is now. *)
Definition Settings_getattr (importable : gset string) (django : Django)
    (attr : string) (o : Settings) : Result SettingVal * Settings :=
  match DEFAULTS !! attr with
  | None => (Raise AttributeError, o)
  | Some default_value =>
      let '(r, o1) := Settings_user_settings django o in
      let value := default default_value (contents django r !! attr) in
      match (if bool_decide (attr ∈ IMPORT_STRINGS)
             then import_setting importable value else Ok value) with
      | Raise e => (Raise e, o1)
      | Ok value =>
          (Ok value,
           mkSettings ({[attr]} ∪ _cached_attrs o1) (<[attr := value]> (attributes o1))
             (_user_settings o1))
      end
  end.

(** [idempotency_settings.attr] for the name of a setting: an attribute
    stored on the object is found first, [__getattr__] is called
    otherwise. *)
Definition Settings_attr (importable : gset string) (django : Django)
    (attr : string) (o : Settings) : Result SettingVal * Settings :=
  match attributes o !! attr with
  | Some value => (Ok value, o)
  | None => Settings_getattr importable django attr o
  end.

(** Reads one after the other; each comes with Django's settings as they
    are at that time. *)
Fixpoint Settings_reads (importable : gset string)
    (reads : list (Django * string)) (o : Settings)
    : list (Result SettingVal) * Settings :=
  match reads with
  | [] => ([], o)
  | (django, attr) :: rest =>
      let '(r, o1) := Settings_attr importable django attr o in
      let '(rs, o2) := Settings_reads importable rest o1 in
      (r :: rs, o2)
  end.

(** [Settings.reload()]: [delattr] raises AttributeError for a cached name
    that is no attribute of the object. *)
Definition Settings_reload (o : Settings) : Result Settings :=
  if bool_decide (_cached_attrs o ⊆ dom (attributes o))
  then Ok (mkSettings ∅ (filter (fun kv => kv.1 ∉ _cached_attrs o) (attributes o)) None)
  else Raise AttributeError.

(** [reload_settings(setting=...)], the receiver of [setting_changed]. *)
Definition reload_settings (setting : string) (o : Settings) : Result Settings :=
  if String.eqb setting SETTINGS_NAME then Settings_reload o else Ok o.

(** What [attr] resolves to from the user's settings [u]. *)
Definition resolve (importable : gset string) (u : gmap string SettingVal)
    (attr : string) : Result SettingVal :=
  match DEFAULTS !! attr with
  | None => Raise AttributeError
  | Some default_value =>
      let value := default default_value (u !! attr) in
      if bool_decide (attr ∈ IMPORT_STRINGS)
      then import_setting importable value else Ok value
  end.

(** The settings stored on the object are the ones listed as cached. *)
Definition coherent (o : Settings) : Prop :=
  _cached_attrs o = dom (attributes o).

(** Every setting stored on the object is what [u] resolves to. *)
Definition resolved_from (importable : gset string) (u : gmap string SettingVal)
    (o : Settings) : Prop :=
  forall attr value, attributes o !! attr = Some value ->
    resolve importable u attr = Ok value.

(** Django's settings with one dict, at address 1, bound to the setting. *)
Definition django_with (u : gmap string SettingVal) : Django :=
  mkDjango {[1%nat := u]} (Some 1%nat).

(** A user's settings that name the header. *)
Definition header_dict : gmap string SettingVal :=
  {["HEADER" := SStr "HTTP_X_KEY"]}.


(** * Properties *)

Section Properties.
Context `{Runtime}.
Implicit Types (s : UserSettings) (w : World) (view : View) (now : Z).
Implicit Types (args : list PyObj) (kwargs : list (string * PyObj)).
Implicit Types (request : Request) (l : LockObj) (j : Job).

(** ** The log and the locks *)

Lemma view_calls_app (l1 l2 : list Event) :
  view_calls (l1 ++ l2) = (view_calls l1 + view_calls l2)%nat.
Proof. unfold view_calls. by rewrite List.filter_app, length_app. Qed.

Lemma acquire_free l w :
  l ∉ held w -> acquire l w = Some (record (Acquire l) (set_held (l :: held w) w)).
Proof. intros Hl. unfold acquire. by rewrite bool_decide_false. Qed.

Lemma acquire_held l w : l ∈ held w -> acquire l w = None.
Proof. intros Hl. unfold acquire. by rewrite bool_decide_true. Qed.

Lemma filter_other_id l (h : list LockObj) :
  l ∉ h -> filter (fun l' => l' ≠ l) h = h.
Proof.
  induction h as [|x h IH]; intros Hl; [done|].
  rewrite filter_cons. apply not_elem_of_cons in Hl as [Hx Hh].
  destruct (decide (x ≠ l)) as [_|Hn]; [by rewrite IH | by destruct Hn].
Qed.

(** Releasing the lock that was put on top of [h] gives [h] back. *)
Lemma filter_released l (h : list LockObj) :
  l ∉ h -> filter (fun l' => l' ≠ l) (l :: h) = h.
Proof.
  intros Hl. rewrite filter_cons.
  destruct (decide (l ≠ l)) as [Hn|_]; [done | by apply filter_other_id].
Qed.

(** ** Settings *)

(** A function setting left to [DEFAULTS] stays the dotted path: the name is
    not in [IMPORT_STRINGS]. *)
Lemma BAD_RESPONSE_FUNCTION_default s :
  user_BAD_RESPONSE_FUNCTION s = None ->
  BAD_RESPONSE_FUNCTION s = Ok (ImportPath "simple_idempotency.utils.bad_response").
Proof. unfold BAD_RESPONSE_FUNCTION. by intros ->. Qed.

Lemma GET_CACHE_KEY_FUNCTION_default s :
  user_GET_CACHE_KEY_FUNCTION s = None ->
  GET_CACHE_KEY_FUNCTION s = Ok (ImportPath "simple_idempotency.utils.get_cache_key").
Proof. unfold GET_CACHE_KEY_FUNCTION. by intros ->. Qed.

(** The class settings are imported. *)
Lemma STORAGE_CLASS_default s :
  user_STORAGE_CLASS s = None -> STORAGE_CLASS s = Ok (Obj CacheKeyStorage).
Proof. unfold STORAGE_CLASS. by intros ->. Qed.

Lemma LOCK_CLASS_default s :
  user_LOCK_CLASS s = None -> LOCK_CLASS s = Ok (Obj ThreadLock).
Proof. unfold LOCK_CLASS. by intros ->. Qed.

(** Calling the default response function fails: a [str] is not callable. *)
Lemma BAD_RESPONSE_default s message :
  user_BAD_RESPONSE_FUNCTION s = None -> BAD_RESPONSE s message = Raise TypeError.
Proof. intros Hs. unfold BAD_RESPONSE. by rewrite BAD_RESPONSE_FUNCTION_default. Qed.

Lemma GET_CACHE_KEY_default s request k :
  user_GET_CACHE_KEY_FUNCTION s = None -> GET_CACHE_KEY s request k = Raise TypeError.
Proof. intros Hs. unfold GET_CACHE_KEY. by rewrite GET_CACHE_KEY_FUNCTION_default. Qed.

(** With the function object in the settings, the call builds the JSON
    response with the configured status code. *)
Lemma BAD_RESPONSE_utils s message :
  user_BAD_RESPONSE_FUNCTION s = Some (Obj utils_bad_response) ->
  BAD_RESPONSE s message = Ok (bad_response s message).
Proof. unfold BAD_RESPONSE, BAD_RESPONSE_FUNCTION. by intros ->. Qed.

Lemma bad_response_status s message :
  status_code (bad_response s message) = BAD_RESPONSE_STATUS_CODE s.
Proof. reflexivity. Qed.

(** ** Lines 21-26: no usable key *)

(** A request outside the safe methods whose header is missing or falsy gets
    [BAD_RESPONSE_FUNCTION(missing-key message)]; nothing else happens. *)
Lemma falsy_key_rejected s view now args kwargs w view_set request :
  view_set_and_request args = Ok (view_set, request) ->
  method request ∉ SAFE_METHODS s ->
  truthy (key_from_header s request) = false ->
  wrapped_view s view now args kwargs w
  = Some (BAD_RESPONSE s missing_key_message, w).
Proof.
  intros Hargs Hsafe Hkey. unfold wrapped_view.
  rewrite Hargs, bool_decide_false by done. by rewrite Hkey.
Qed.

Lemma missing_header_falsy s request :
  META request !! HEADER s = None -> truthy (key_from_header s request) = false.
Proof. unfold key_from_header. by intros ->. Qed.

Lemma falsy_header_falsy s request v :
  META request !! HEADER s = Some v -> truthy v = false ->
  truthy (key_from_header s request) = false.
Proof. unfold key_from_header. by intros ->. Qed.

(** X16: with utils.bad_response as the response function in the settings, a
    request outside the safe methods whose key header is missing or falsy is
    answered by the bad response with the missing-key message; the view is
    not called and nothing changes. *)
Lemma missing_key_bad_response s view now args kwargs w view_set request :
  view_set_and_request args = Ok (view_set, request) ->
  method request ∉ SAFE_METHODS s ->
  truthy (key_from_header s request) = false ->
  user_BAD_RESPONSE_FUNCTION s = Some (Obj utils_bad_response) ->
  wrapped_view s view now args kwargs w
  = Some (Ok (bad_response s missing_key_message), w).
Proof.
  intros Hargs Hsafe Hkey Hf.
  rewrite (falsy_key_rejected _ _ _ _ _ _ _ _ Hargs Hsafe Hkey).
  by rewrite BAD_RESPONSE_utils.
Qed.

(** C4, the code on the default settings: a request outside the safe
    methods that lacks the idempotency-key header, under settings that leave
    BAD_RESPONSE_FUNCTION to its default, does not get the bad response: the
    call raises TypeError (the default is a dotted path that is never
    imported).  The view is not called and nothing changes. *)
Theorem missing_key_default_function_raises s view now args kwargs w view_set request :
  view_set_and_request args = Ok (view_set, request) ->
  method request ∉ SAFE_METHODS s ->
  META request !! HEADER s = None ->
  user_BAD_RESPONSE_FUNCTION s = None ->
  wrapped_view s view now args kwargs w = Some (Raise TypeError, w).
Proof.
  intros Hargs Hsafe Hmeta Hf.
  rewrite (falsy_key_rejected _ _ _ _ _ _ _ _ Hargs Hsafe
             (missing_header_falsy _ _ Hmeta)).
  by rewrite BAD_RESPONSE_default.
Qed.

(** C10, the code on the default settings: a header that is present with a
    falsy value (the empty string, None, 0) takes the same branch as a
    missing header, and under settings that leave BAD_RESPONSE_FUNCTION to
    its default that branch raises TypeError instead of returning the bad
    response.  The view is not called and nothing changes. *)
Theorem falsy_key_default_function_raises s view now args kwargs w view_set request v :
  view_set_and_request args = Ok (view_set, request) ->
  method request ∉ SAFE_METHODS s ->
  META request !! HEADER s = Some v ->
  truthy v = false ->
  user_BAD_RESPONSE_FUNCTION s = None ->
  wrapped_view s view now args kwargs w = Some (Raise TypeError, w).
Proof.
  intros Hargs Hsafe Hmeta Hv Hf.
  rewrite (falsy_key_rejected _ _ _ _ _ _ _ _ Hargs Hsafe
             (falsy_header_falsy _ _ _ Hmeta Hv)).
  by rewrite BAD_RESPONSE_default.
Qed.

(** ** Lines 28-31 on the default settings *)

(** X17: a request outside the safe methods that does carry a key, under
    settings that leave GET_CACHE_KEY_FUNCTION to its default, ends on line
    29: the default is a dotted path as well, and calling it raises
    TypeError before any lock or storage is touched. *)
Lemma keyed_request_default_function_raises s view now args kwargs w view_set request :
  view_set_and_request args = Ok (view_set, request) ->
  method request ∉ SAFE_METHODS s ->
  truthy (key_from_header s request) = true ->
  user_GET_CACHE_KEY_FUNCTION s = None ->
  wrapped_view s view now args kwargs w = Some (Raise TypeError, w).
Proof.
  intros Hargs Hsafe Hkey Hf. unfold wrapped_view.
  rewrite Hargs, bool_decide_false by done. rewrite Hkey. simpl.
  by rewrite GET_CACHE_KEY_default.
Qed.

(** ** Lines 28-37: the way to the lock *)

Lemma prepare_Some s args kwargs j :
  prepare s args kwargs = Some j ->
  exists view_set request,
    view_set_and_request args = Ok (view_set, request)
    /\ (method request ∉ SAFE_METHODS s)
    /\ truthy (key_from_header s request) = true
    /\ GET_CACHE_KEY s request (key_from_header s request) = Ok (job_key j)
    /\ j = mkJob args kwargs view_set request (job_key j)
             (sha256_hexdigest (body request)).
Proof.
  unfold prepare. intros Hp.
  destruct (view_set_and_request args) as [[view_set request]|]; [|done].
  case_bool_decide as Hsafe; [done|].
  destruct (truthy (key_from_header s request)) eqn:Hk; [|done]. simpl in Hp.
  destruct (GET_CACHE_KEY s request (key_from_header s request)) as [key|] eqn:Hg;
    [|done].
  injection Hp as <-. by exists view_set, request.
Qed.

Lemma held_Lock_lock mutex name w : held (Lock_lock mutex name w).2 = held w.
Proof. by destruct mutex. Qed.

Lemma caches_Lock_lock mutex name w : caches (Lock_lock mutex name w).2 = caches w.
Proof. by destruct mutex. Qed.

Lemma caches_entered mutex key w : caches (entered mutex key w) = caches w.
Proof. by destruct mutex. Qed.

Lemma app_entered mutex key w : app (entered mutex key w) = app w.
Proof. by destruct mutex. Qed.

Lemma held_entered mutex key w :
  held (entered mutex key w) = lock_of mutex key w :: held w.
Proof. by destruct mutex. Qed.

Lemma log_entered mutex key w :
  log (entered mutex key w) = log w ++ [Acquire (lock_of mutex key w)].
Proof. by destruct mutex. Qed.

Lemma rlocks_entered mutex key w :
  rlocks (entered mutex key w)
  = match mutex with ThreadLock => S (rlocks w) | RedisLock => rlocks w end.
Proof. by destruct mutex. Qed.

(** A call that reaches the lock and finds it free runs the locked section
    and releases the lock. *)
Lemma wrapped_view_locked s view now args kwargs w j mutex :
  prepare s args kwargs = Some j ->
  LOCK s = Ok mutex ->
  lock_of mutex (job_key j) w ∉ held w ->
  wrapped_view s view now args kwargs w
  = let '(r, w3) :=
      locked_section s view now args kwargs (job_view_set j) (job_request j)
        (job_key j) (job_body_hash j) (entered mutex (job_key j) w) in
    Some (r, release (lock_of mutex (job_key j) w) w3).
Proof.
  intros Hp Hlock Hfree.
  destruct (prepare_Some _ _ _ _ Hp) as (view_set & request & Hargs & Hsafe & Hk & Hg & Hj).
  unfold wrapped_view. rewrite Hargs, bool_decide_false by done.
  rewrite Hk. simpl. rewrite Hg, Hlock.
  unfold lock_of, entered in *.
  destruct (Lock_lock mutex ("Idempotency_" +:+ job_key j) w) as [l w1] eqn:Hl.
  simpl in Hfree.
  assert (held w1 = held w) as Hh.
  { pose proof (held_Lock_lock mutex ("Idempotency_" +:+ job_key j) w) as Hx.
    by rewrite Hl in Hx. }
  rewrite acquire_free by (by rewrite Hh).
  assert (job_view_set j = view_set) as -> by (by rewrite Hj).
  assert (job_request j = request) as -> by (by rewrite Hj).
  assert (job_body_hash j = sha256_hexdigest (body request)) as ->
    by (by rewrite Hj).
  done.
Qed.

(** A call that reaches the lock and finds it held waits. *)
Lemma wrapped_view_waits s view now args kwargs w j mutex :
  prepare s args kwargs = Some j ->
  LOCK s = Ok mutex ->
  lock_of mutex (job_key j) w ∈ held w ->
  wrapped_view s view now args kwargs w = None.
Proof.
  intros Hp Hlock Hheld.
  destruct (prepare_Some _ _ _ _ Hp) as (view_set & request & Hargs & Hsafe & Hk & Hg & Hj).
  unfold wrapped_view. rewrite Hargs, bool_decide_false by done.
  rewrite Hk. simpl. rewrite Hg, Hlock.
  unfold lock_of in *.
  destruct (Lock_lock mutex ("Idempotency_" +:+ job_key j) w) as [l w1] eqn:Hl.
  simpl in Hheld.
  assert (held w1 = held w) as Hh.
  { pose proof (held_Lock_lock mutex ("Idempotency_" +:+ job_key j) w) as Hx.
    by rewrite Hl in Hx. }
  by rewrite acquire_held by (by rewrite Hh).
Qed.

(** ** What the phases read and write *)

Lemma STORAGE_caches s w w' : caches w = caches w' -> STORAGE s w = STORAGE s w'.
Proof.
  intros Hc. unfold STORAGE, Storage_init, caches_getitem. by rewrite Hc.
Qed.

Lemma Storage_get_caches now (st : Storage) key w w' :
  caches w = caches w' -> Storage_get now st key w = Storage_get now st key w'.
Proof.
  intros Hc. unfold Storage_get, caches_getitem. by rewrite Hc.
Qed.

Lemma lookup_caches s now key h w w' :
  caches w = caches w' -> lookup s now key h w = lookup s now key h w'.
Proof.
  intros Hc. unfold lookup. rewrite (STORAGE_caches s w w' Hc).
  destruct (STORAGE s w') as [st|]; [|done].
  by rewrite (Storage_get_caches now st key w w' Hc).
Qed.

(** The view is called once; the caches and the locks are not touched. *)
Lemma invoke_frame view args kwargs view_set request w x w1 :
  invoke view args kwargs view_set request w = (x, w1) ->
  log w1 = log w ++ [CallView args kwargs]
  /\ caches w1 = caches w /\ held w1 = held w /\ rlocks w1 = rlocks w
  /\ app w1 = (view args kwargs (app w)).2.
Proof.
  unfold invoke, call_view. destruct (view args kwargs (app w)) as [[response|e] a].
  - destruct (finalize view_set request response) as [response'|e'].
    + destruct (is_success (status_code response')); by intros [= <- <-].
    + by intros [= <- <-].
  - by intros [= <- <-].
Qed.

(** What [invoke] hands on is decided by the outcome of the view. *)
Lemma invoke_outcome view args kwargs view_set request w :
  (invoke view args kwargs view_set request w).1
  = match view_outcome view args kwargs view_set request (app w) with
    | Raise e => inl (Raise e)
    | Ok response =>
        if is_success (status_code response) then inr response else inl (Ok response)
    end.
Proof.
  unfold invoke, call_view, view_outcome.
  destruct (view args kwargs (app w)) as [[response|e] a]; simpl; [|done].
  destruct (finalize view_set request response) as [response'|e']; [|done].
  by destruct (is_success (status_code response')).
Qed.

(** Storing writes to the caches only. *)
Lemma store_frame s now (st : Storage) key h response w r w1 :
  store s now st key h response w = (r, w1) ->
  log w1 = log w /\ held w1 = held w /\ rlocks w1 = rlocks w /\ app w1 = app w.
Proof.
  unfold store.
  destruct (Storage_set now s st key _ w) as [[st' w']|e] eqn:Hset.
  - intros [= <- <-]. unfold Storage_set in Hset. destruct st.
    + by injection Hset as <- <-.
    + destruct (caches_getitem w (STORAGE_CACHE_NAME s)); [|done].
      simpl in Hset. by injection Hset as <- <-.
  - by intros [= <- <-].
Qed.

(** ** Leaving the lock *)

Lemma release_frame l w :
  caches (release l w) = caches w /\ app (release l w) = app w
  /\ rlocks (release l w) = rlocks w
  /\ log (release l w) = log w ++ [Release l]
  /\ held (release l w) = filter (fun l' => l' ≠ l) (held w).
Proof. done. Qed.

(** Entering and leaving bring the held locks back to what they were. *)
Lemma held_released mutex key w w3 :
  lock_of mutex key w ∉ held w ->
  held w3 = held (entered mutex key w) ->
  held (release (lock_of mutex key w) w3) = held w.
Proof.
  intros Hfree Hh. destruct (release_frame (lock_of mutex key w) w3) as (_&_&_&_&->).
  rewrite Hh, held_entered. by apply filter_released.
Qed.

(** The allocation of [RLock] objects keeps them fresh. *)
Lemma rlocks_fresh_next mutex key w w3 :
  rlocks_fresh w ->
  lock_of mutex key w ∉ held w ->
  held w3 = held (entered mutex key w) ->
  rlocks w3 = rlocks (entered mutex key w) ->
  rlocks_fresh (release (lock_of mutex key w) w3).
Proof.
  intros Hfresh Hfree Hh Hr i Hi.
  rewrite (held_released mutex key w w3 Hfree Hh) in Hi.
  destruct (release_frame (lock_of mutex key w) w3) as (_&_&->&_&_).
  rewrite Hr, rlocks_entered. specialize (Hfresh i Hi). destruct mutex; lia.
Qed.

(** After a call, the lock of the next call with the same key is free. *)
Lemma next_lock_free mutex key w w' :
  rlocks_fresh w' ->
  lock_of mutex key w ∉ held w ->
  held w' = held w ->
  lock_of mutex key w' ∉ held w'.
Proof.
  intros Hfresh Hfree Hh. destruct mutex; unfold lock_of in *; simpl in *.
  - intros Hin. specialize (Hfresh _ Hin). lia.
  - by rewrite Hh.
Qed.

(** ** Lines 63-72: a record with another hash *)

(** The call answers with [BAD_RESPONSE_FUNCTION(conflict message)]; the
    view is not called, the caches and the state of the view are as
    before, the lock is free again. *)
Lemma conflict_rejected s view now args kwargs w j mutex (st : Storage) h' r' :
  prepare s args kwargs = Some j ->
  LOCK s = Ok mutex ->
  lock_of mutex (job_key j) w ∉ held w ->
  STORAGE s w = Ok st ->
  Storage_get now st (job_key j) w = Ok (Some (h', r')) ->
  h' ≠ job_body_hash j ->
  exists w',
    wrapped_view s view now args kwargs w
    = Some (BAD_RESPONSE s conflict_message, w')
    /\ caches w' = caches w /\ app w' = app w /\ held w' = held w
    /\ view_calls (log w') = view_calls (log w).
Proof.
  intros Hp Hlock Hfree Hst Hget Hne.
  rewrite (wrapped_view_locked _ _ _ _ _ _ _ _ Hp Hlock Hfree).
  unfold locked_section.
  rewrite (lookup_caches s now _ _ _ w (caches_entered mutex (job_key j) w)).
  unfold lookup. rewrite Hst, Hget.
  assert (String.eqb (job_body_hash j) h' = false) as ->.
  { apply String.eqb_neq. congruence. }
  eexists. split; [reflexivity|].
  destruct (release_frame (lock_of mutex (job_key j) w) (entered mutex (job_key j) w))
    as (Hc & Ha & _ & Hl & _).
  rewrite Hc, Ha, Hl, caches_entered, app_entered, log_entered.
  repeat split; [by apply held_released|].
  rewrite !view_calls_app. unfold view_calls. simpl. lia.
Qed.

(** C3, the code on the default response function: a request whose cache
    key holds a record with another content hash, under settings that leave
    BAD_RESPONSE_FUNCTION to its default, does not get the bad response: the
    call raises TypeError.  The rest of the claim holds: the view is not
    called, the caches and the state of the view are unchanged, and the lock
    is released. *)
Theorem conflict_default_function_raises s view now args kwargs w j mutex
    (st : Storage) h' r' :
  prepare s args kwargs = Some j ->
  LOCK s = Ok mutex ->
  lock_of mutex (job_key j) w ∉ held w ->
  STORAGE s w = Ok st ->
  Storage_get now st (job_key j) w = Ok (Some (h', r')) ->
  h' ≠ job_body_hash j ->
  user_BAD_RESPONSE_FUNCTION s = None ->
  exists w',
    wrapped_view s view now args kwargs w = Some (Raise TypeError, w')
    /\ caches w' = caches w /\ app w' = app w /\ held w' = held w
    /\ view_calls (log w') = view_calls (log w).
Proof.
  intros Hp Hlock Hfree Hst Hget Hne Hf.
  destruct (conflict_rejected s view now args kwargs w j mutex st h' r')
    as (w' & Hw & Hrest); try done.
  exists w'. split; [|done]. rewrite Hw. by rewrite BAD_RESPONSE_default.
Qed.

(** X15: with utils.bad_response as the response function in the settings, a
    request whose key holds a record with another body hash is answered by
    the bad response (the conflict message, the configured status code);
    the view is not called, and the caches, the state of the view and the
    held locks are as before. *)
Lemma conflict_bad_response s view now args kwargs w j mutex (st : Storage) h' r' :
  prepare s args kwargs = Some j ->
  LOCK s = Ok mutex ->
  lock_of mutex (job_key j) w ∉ held w ->
  STORAGE s w = Ok st ->
  Storage_get now st (job_key j) w = Ok (Some (h', r')) ->
  h' ≠ job_body_hash j ->
  user_BAD_RESPONSE_FUNCTION s = Some (Obj utils_bad_response) ->
  exists w',
    wrapped_view s view now args kwargs w
    = Some (Ok (bad_response s conflict_message), w')
    /\ caches w' = caches w /\ app w' = app w /\ held w' = held w
    /\ view_calls (log w') = view_calls (log w).
Proof.
  intros Hp Hlock Hfree Hst Hget Hne Hf.
  destruct (conflict_rejected s view now args kwargs w j mutex st h' r')
    as (w' & Hw & Hrest); try done.
  exists w'. split; [|done]. rewrite Hw. by rewrite BAD_RESPONSE_utils.
Qed.

(** ** Lines 42-61: no record for the key *)

(** On a miss the view is called once, and the lock is free again after the
    call.  If the outcome is an exception or a status outside 200-299, the
    call ends with that outcome and the caches are as before. *)
Lemma miss_call s view now args kwargs w j mutex (st : Storage) :
  prepare s args kwargs = Some j ->
  LOCK s = Ok mutex ->
  lock_of mutex (job_key j) w ∉ held w ->
  lookup s now (job_key j) (job_body_hash j) w = inr st ->
  exists r w',
    wrapped_view s view now args kwargs w = Some (r, w')
    /\ view_calls (log w') = S (view_calls (log w))
    /\ held w' = held w
    /\ (rlocks_fresh w -> rlocks_fresh w')
    /\ (failed (view_outcome view args kwargs (job_view_set j) (job_request j) (app w)) ->
        r = view_outcome view args kwargs (job_view_set j) (job_request j) (app w)
        /\ caches w' = caches w).
Proof.
  intros Hp Hlock Hfree Hmiss.
  rewrite (wrapped_view_locked _ _ _ _ _ _ _ _ Hp Hlock Hfree).
  unfold locked_section.
  rewrite (lookup_caches s now _ _ _ w (caches_entered mutex (job_key j) w)), Hmiss.
  pose proof (invoke_outcome view args kwargs (job_view_set j) (job_request j)
                (entered mutex (job_key j) w)) as Hout.
  rewrite app_entered in Hout.
  destruct (invoke view args kwargs (job_view_set j) (job_request j)
              (entered mutex (job_key j) w)) as [x w1] eqn:Hinv.
  destruct (invoke_frame _ _ _ _ _ _ _ _ Hinv) as (Hlog1 & Hc1 & Hh1 & Hr1 & Ha1).
  simpl in Hout.
  assert (forall w3, log w3 = log w1 -> held w3 = held w1 -> rlocks w3 = rlocks w1 ->
            view_calls (log (release (lock_of mutex (job_key j) w) w3))
            = S (view_calls (log w))
            /\ held (release (lock_of mutex (job_key j) w) w3) = held w
            /\ (rlocks_fresh w -> rlocks_fresh (release (lock_of mutex (job_key j) w) w3)))
    as Hfin.
  { intros w3 Hl3 Hh3 Hr3. split; [|split].
    - destruct (release_frame (lock_of mutex (job_key j) w) w3) as (_&_&_&->&_).
      rewrite Hl3, Hlog1, log_entered, !view_calls_app. unfold view_calls. simpl. lia.
    - apply held_released; [done|]. by rewrite Hh3.
    - intros Hfresh. apply rlocks_fresh_next; try done; congruence. }
  destruct x as [r|response].
  - exists r, (release (lock_of mutex (job_key j) w) w1).
    split; [done|]. destruct (Hfin w1) as (?&?&?); try done.
    repeat split; try done.
    + destruct (view_outcome _ _ _ _ _ _) as [response|e];
        [destruct (is_success (status_code response))|]; congruence.
    + destruct (release_frame (lock_of mutex (job_key j) w) w1) as (->&_).
      by rewrite Hc1, caches_entered.
  - destruct (store s now st (job_key j) (job_body_hash j) response w1)
      as [r w3] eqn:Hstore.
    destruct (store_frame _ _ _ _ _ _ _ _ _ Hstore) as (Hl3 & Hh3 & Hr3 & Ha3).
    exists r, (release (lock_of mutex (job_key j) w) w3).
    split; [done|]. destruct (Hfin w3) as (?&?&?); try done.
    repeat split; try done;
      destruct (view_outcome _ _ _ _ _ _) as [response'|e]; simpl in *;
      [destruct (is_success (status_code response')) eqn:?|
      |destruct (is_success (status_code response')) eqn:?|]; congruence.
Qed.

(** A miss stays a miss for a later clock, as long as the caches are the
    same. *)
Lemma cache_get_None_later now now' (c : gmap string CacheEntry) key :
  now <= now' -> cache_get now c key = None -> cache_get now' c key = None.
Proof.
  unfold cache_get. intros Hle. destruct (c !! key) as [e|]; [|done].
  case_bool_decide; [done|]. intros _. rewrite bool_decide_false; [done|lia].
Qed.

Lemma lookup_miss_later s now now' key h w w' (st : Storage) :
  now <= now' -> caches w' = caches w ->
  lookup s now key h w = inr st -> lookup s now' key h w' = inr st.
Proof.
  intros Hle Hc. rewrite (lookup_caches s now' key h w' w Hc).
  unfold lookup. destruct (STORAGE s w) as [st0|]; [|done].
  destruct st0 as [d|alias]; simpl; [done|].
  destruct (caches_getitem w alias) as [c|]; [|done]. simpl.
  destruct (cache_get now c key) as [value|] eqn:Hget.
  - destruct (pickle_loads value) as [[h0 r0]|]; simpl; [|done].
    by destruct (String.eqb h h0).
  - by rewrite (cache_get_None_later now now' c key Hle Hget).
Qed.

(** ** The time a call takes *)

Lemma owned_in_time s mutex key w now later :
  mutex = ThreadLock \/ later < now + LOCK_TTL s ->
  owned s (lock_of mutex key w) now later = true.
Proof.
  intros [->|Hlt]; [done|]. destruct mutex; [done|]. simpl.
  by rewrite bool_decide_true.
Qed.

Lemma owned_too_late s key w now later :
  now + LOCK_TTL s < later ->
  owned s (lock_of RedisLock key w) now later = false.
Proof. intros Hlt. simpl. rewrite bool_decide_false; [done|lia]. Qed.

(** Leaving hands on the outcome of the body while the lock is owned, and
    raises otherwise; either way the lock is no longer held and nothing
    else changes. *)
Lemma leave_frame s l entered now (r : Result Response) w :
  (leave s l entered now r w).1
  = (if owned s l entered now then r else Raise LockNotOwnedError)
  /\ caches (leave s l entered now r w).2 = caches w
  /\ app (leave s l entered now r w).2 = app w
  /\ rlocks (leave s l entered now r w).2 = rlocks w
  /\ view_calls (log (leave s l entered now r w).2) = view_calls (log w)
  /\ held (leave s l entered now r w).2 = filter (fun l' => l' ≠ l) (held w).
Proof.
  unfold leave. destruct (owned s l entered now); simpl; repeat split; try done.
  rewrite view_calls_app. unfold view_calls. simpl. lia.
Qed.

Lemma rlocks_fresh_after mutex key w w' :
  rlocks_fresh w ->
  held w' = held w ->
  rlocks w' = rlocks (entered mutex key w) ->
  rlocks_fresh w'.
Proof.
  intros Hfresh Hh Hr i Hi. rewrite Hh in Hi. rewrite Hr, rlocks_entered.
  specialize (Hfresh i Hi). destruct mutex; lia.
Qed.

(** A call that reaches the lock and finds it free runs the locked section
    and leaves. *)
Lemma timed_wrapped_view_locked s view now later args kwargs w j mutex :
  prepare s args kwargs = Some j ->
  LOCK s = Ok mutex ->
  lock_of mutex (job_key j) w ∉ held w ->
  timed_wrapped_view s view now later args kwargs w
  = let '(r, w3) :=
      timed_section s view now later args kwargs (job_view_set j) (job_request j)
        (job_key j) (job_body_hash j) (entered mutex (job_key j) w) in
    Some (leave s (lock_of mutex (job_key j) w) now later r w3).
Proof.
  intros Hp Hlock Hfree.
  destruct (prepare_Some _ _ _ _ Hp) as (view_set & request & Hargs & Hsafe & Hk & Hg & Hj).
  unfold timed_wrapped_view. rewrite Hargs, bool_decide_false by done.
  rewrite Hk. simpl. rewrite Hg, Hlock.
  unfold lock_of, entered in *.
  destruct (Lock_lock mutex ("Idempotency_" +:+ job_key j) w) as [l w1] eqn:Hl.
  simpl in Hfree.
  assert (held w1 = held w) as Hh.
  { pose proof (held_Lock_lock mutex ("Idempotency_" +:+ job_key j) w) as Hx.
    by rewrite Hl in Hx. }
  rewrite acquire_free by (by rewrite Hh).
  assert (job_view_set j = view_set) as -> by (by rewrite Hj).
  assert (job_request j = request) as -> by (by rewrite Hj).
  assert (job_body_hash j = sha256_hexdigest (body request)) as ->
    by (by rewrite Hj).
  done.
Qed.

(** A call that takes no time is the call of [wrapped_view]. *)
Lemma timed_wrapped_view_instant s view now args kwargs w :
  0 < LOCK_TTL s ->
  timed_wrapped_view s view now now args kwargs w = wrapped_view s view now args kwargs w.
Proof.
  intros Httl. unfold timed_wrapped_view, wrapped_view.
  destruct (view_set_and_request args) as [[view_set request]|e]; [|done].
  case_bool_decide; [done|].
  destruct (negb (truthy (key_from_header s request))); [done|].
  destruct (GET_CACHE_KEY s request (key_from_header s request)) as [key|e]; [|done].
  destruct (LOCK s) as [mutex|e]; [|done].
  destruct (Lock_lock mutex ("Idempotency_" +:+ key) w) as [l w1].
  destruct (acquire l w1) as [w2|]; [|done].
  change (timed_section s view now now) with (locked_section s view now).
  destruct (locked_section s view now args kwargs view_set request key
              (sha256_hexdigest (body request)) w2) as [r w3].
  unfold leave.
  assert (owned s l now now = true) as ->; [|done].
  destruct l; [done|]. simpl. rewrite bool_decide_true; [done|lia].
Qed.

(** The state a call leaves behind once its locked section is over. *)
Lemma left_frame s mutex key w now later (r : Result Response) w3 :
  lock_of mutex key w ∉ held w ->
  held w3 = held (entered mutex key w) ->
  rlocks w3 = rlocks (entered mutex key w) ->
  held (leave s (lock_of mutex key w) now later r w3).2 = held w
  /\ (rlocks_fresh w -> rlocks_fresh (leave s (lock_of mutex key w) now later r w3).2).
Proof.
  intros Hfree Hh Hr.
  destruct (leave_frame s (lock_of mutex key w) now later r w3)
    as (_ & _ & _ & Hr' & _ & Hh').
  assert (held (leave s (lock_of mutex key w) now later r w3).2 = held w) as Hheld.
  { rewrite Hh', Hh, held_entered. by apply filter_released. }
  split; [done|]. intros Hfresh.
  apply (rlocks_fresh_after mutex key w); [done|done|]. by rewrite Hr'.
Qed.

(** On a miss the view is called once and the lock is free again after the
    call.  If the outcome is an exception or a status outside 200-299, the
    call ends with that outcome, or with LockNotOwnedError when the lease
    has run out, and the caches are as before. *)
Lemma timed_miss_call s view now later args kwargs w j mutex (st : Storage) :
  prepare s args kwargs = Some j ->
  LOCK s = Ok mutex ->
  lock_of mutex (job_key j) w ∉ held w ->
  lookup s now (job_key j) (job_body_hash j) w = inr st ->
  exists r w',
    timed_wrapped_view s view now later args kwargs w = Some (r, w')
    /\ view_calls (log w') = S (view_calls (log w))
    /\ held w' = held w
    /\ (rlocks_fresh w -> rlocks_fresh w')
    /\ (failed (view_outcome view args kwargs (job_view_set j) (job_request j) (app w)) ->
        r = (if owned s (lock_of mutex (job_key j) w) now later
             then view_outcome view args kwargs (job_view_set j) (job_request j) (app w)
             else Raise LockNotOwnedError)
        /\ caches w' = caches w).
Proof.
  intros Hp Hlock Hfree Hmiss.
  rewrite (timed_wrapped_view_locked _ _ _ _ _ _ _ _ _ Hp Hlock Hfree).
  unfold timed_section.
  rewrite (lookup_caches s now _ _ _ w (caches_entered mutex (job_key j) w)), Hmiss.
  pose proof (invoke_outcome view args kwargs (job_view_set j) (job_request j)
                (entered mutex (job_key j) w)) as Hout.
  rewrite app_entered in Hout.
  destruct (invoke view args kwargs (job_view_set j) (job_request j)
              (entered mutex (job_key j) w)) as [x w1] eqn:Hinv.
  destruct (invoke_frame _ _ _ _ _ _ _ _ Hinv) as (Hlog1 & Hc1 & Hh1 & Hr1 & Ha1).
  simpl in Hout.
  assert (forall (r : Result Response) w3,
            log w3 = log w1 -> held w3 = held w1 -> rlocks w3 = rlocks w1 ->
            view_calls (log (leave s (lock_of mutex (job_key j) w) now later r w3).2)
            = S (view_calls (log w))
            /\ held (leave s (lock_of mutex (job_key j) w) now later r w3).2 = held w
            /\ (rlocks_fresh w ->
                rlocks_fresh (leave s (lock_of mutex (job_key j) w) now later r w3).2))
    as Hfin.
  { intros r w3 Hl3 Hh3 Hr3.
    destruct (left_frame s mutex (job_key j) w now later r w3 Hfree) as [Hheld Hfr];
      [congruence|congruence|].
    split; [|by split].
    destruct (leave_frame s (lock_of mutex (job_key j) w) now later r w3)
      as (_ & _ & _ & _ & -> & _).
    rewrite Hl3, Hlog1, log_entered, !view_calls_app. unfold view_calls. simpl. lia. }
  destruct x as [r|response].
  - destruct (leave s (lock_of mutex (job_key j) w) now later r w1) as [r' w'] eqn:Hleave.
    exists r', w'. split; [done|].
    destruct (Hfin r w1) as (Hn & Hh & Hf); try done. rewrite Hleave in Hn, Hh, Hf.
    repeat split; try done.
    + destruct (leave_frame s (lock_of mutex (job_key j) w) now later r w1) as (Hr' & _).
      rewrite Hleave in Hr'. simpl in Hr'. rewrite Hr'.
      assert (r = view_outcome view args kwargs (job_view_set j) (job_request j) (app w))
        as ->; [|done].
      destruct (view_outcome _ _ _ _ _ _) as [response|e];
        [destruct (is_success (status_code response))|]; congruence.
    + destruct (leave_frame s (lock_of mutex (job_key j) w) now later r w1)
        as (_ & Hc' & _).
      rewrite Hleave in Hc'. simpl in Hc'. by rewrite Hc', Hc1, caches_entered.
  - destruct (store s later st (job_key j) (job_body_hash j) response w1)
      as [r w3] eqn:Hstore.
    destruct (store_frame _ _ _ _ _ _ _ _ _ Hstore) as (Hl3 & Hh3 & Hr3 & Ha3).
    destruct (leave s (lock_of mutex (job_key j) w) now later r w3) as [r' w'] eqn:Hleave.
    exists r', w'. split; [done|].
    destruct (Hfin r w3) as (Hn & Hh & Hf); try done. rewrite Hleave in Hn, Hh, Hf.
    repeat split; try done;
      destruct (view_outcome _ _ _ _ _ _) as [response'|e]; simpl in *;
      [destruct (is_success (status_code response')) eqn:?|
      |destruct (is_success (status_code response')) eqn:?|]; congruence.
Qed.


(** ** The in-process storage *)

(** Every call creates its [MemoryKeyStorage], with a new dict: the lookup
    never finds a record. *)
Lemma memory_lookup_miss s now key h w :
  call_setting (STORAGE_CLASS s) = Ok MemoryKeyStorage ->
  lookup s now key h w = inr (MemoryStorage ∅).
Proof. intros Hs. unfold lookup, STORAGE. by rewrite Hs. Qed.

(** C1, the code on the in-process storage: with STORAGE_CLASS set to
    MemoryKeyStorage, two calls with the same arguments (same key, same
    body) both call the view, whatever the first one answered: the second
    call does not replay, the view is called twice. *)
Theorem memory_storage_second_call_runs_view s view now now' args kwargs w j mutex :
  prepare s args kwargs = Some j ->
  LOCK s = Ok mutex ->
  call_setting (STORAGE_CLASS s) = Ok MemoryKeyStorage ->
  rlocks_fresh w ->
  lock_of mutex (job_key j) w ∉ held w ->
  exists r1 w1 r2 w2,
    wrapped_view s view now args kwargs w = Some (r1, w1)
    /\ wrapped_view s view now' args kwargs w1 = Some (r2, w2)
    /\ view_calls (log w2) = S (S (view_calls (log w))).
Proof.
  intros Hp Hlock Hmem Hfresh Hfree.
  destruct (miss_call s view now args kwargs w j mutex _ Hp Hlock Hfree
              (memory_lookup_miss s now _ _ w Hmem))
    as (r1 & w1 & Hcall1 & Hn1 & Hh1 & Hf1 & _).
  assert (lock_of mutex (job_key j) w1 ∉ held w1) as Hfree1.
  { apply (next_lock_free mutex (job_key j) w w1); auto. }
  destruct (miss_call s view now' args kwargs w1 j mutex _ Hp Hlock Hfree1
              (memory_lookup_miss s now' _ _ w1 Hmem))
    as (r2 & w2 & Hcall2 & Hn2 & _).
  exists r1, w1, r2, w2. repeat split; [done..|]. by rewrite Hn2, Hn1.
Qed.

(** ** The cache storage: first execution, then replay *)

Lemma cache_lookup_miss s now key h w (st : Storage) :
  call_setting (STORAGE_CLASS s) = Ok CacheKeyStorage ->
  lookup s now key h w = inr st ->
  st = CacheStorage (STORAGE_CACHE_NAME s)
  /\ exists c, caches w !! STORAGE_CACHE_NAME s = Some c.
Proof.
  intros Hs. unfold lookup, STORAGE, Storage_init, caches_getitem. rewrite Hs. simpl.
  destruct (caches w !! STORAGE_CACHE_NAME s) as [c|] eqn:Hc; [|done]. simpl.
  unfold caches_getitem. rewrite Hc. simpl. intros Hl. split; [|by exists c].
  destruct (cache_get now c key) as [value|]; simpl in Hl.
  - destruct (pickle_loads value) as [[h0 r0]|]; simpl in Hl; [|done].
    by destruct (String.eqb h h0).
  - by injection Hl as <-.
Qed.

(** A record that was stored and has not expired is found, whole. *)
Lemma cache_lookup_hit s now now' key h response w (c : gmap string CacheEntry) :
  (forall v, pickle_loads (pickle_dumps v) = Ok v) ->
  call_setting (STORAGE_CLASS s) = Ok CacheKeyStorage ->
  caches w !! STORAGE_CACHE_NAME s
  = Some (cache_set now c key (pickle_dumps (h, response)) (STORAGE_CACHE_TIMEOUT s)) ->
  now' < now + STORAGE_CACHE_TIMEOUT s ->
  lookup s now' key h w = inl (Ok response).
Proof.
  intros Hpickle Hs Hc Hlt.
  unfold lookup, STORAGE, Storage_init, caches_getitem. rewrite Hs. simpl.
  rewrite Hc. simpl. unfold caches_getitem. rewrite Hc. simpl.
  unfold cache_get, cache_set. rewrite lookup_insert_eq. simpl.
  rewrite bool_decide_true by done. rewrite Hpickle. simpl.
  by rewrite String.eqb_refl.
Qed.

(** A call whose lookup ends the locked section. *)
Lemma timed_lookup_ends s view now later args kwargs w j mutex (r : Result Response) :
  prepare s args kwargs = Some j ->
  LOCK s = Ok mutex ->
  lock_of mutex (job_key j) w ∉ held w ->
  lookup s now (job_key j) (job_body_hash j) w = inl r ->
  exists w',
    timed_wrapped_view s view now later args kwargs w
    = Some (if owned s (lock_of mutex (job_key j) w) now later
            then r else Raise LockNotOwnedError, w')
    /\ caches w' = caches w /\ app w' = app w /\ held w' = held w
    /\ view_calls (log w') = view_calls (log w).
Proof.
  intros Hp Hlock Hfree Hhit.
  rewrite (timed_wrapped_view_locked _ _ _ _ _ _ _ _ _ Hp Hlock Hfree).
  unfold timed_section.
  rewrite (lookup_caches s now _ _ _ w (caches_entered mutex (job_key j) w)), Hhit.
  destruct (leave_frame s (lock_of mutex (job_key j) w) now later r
              (entered mutex (job_key j) w)) as (Hr & Hc & Ha & _ & Hn & _).
  destruct (left_frame s mutex (job_key j) w now later r (entered mutex (job_key j) w)
              Hfree eq_refl eq_refl) as [Hh _].
  destruct (leave s (lock_of mutex (job_key j) w) now later r
              (entered mutex (job_key j) w)) as [r' w'].
  simpl in *. exists w'. subst r'. split; [done|].
  rewrite Hc, Ha, Hn, caches_entered, app_entered, log_entered.
  repeat split; [done|].
  rewrite !view_calls_app. unfold view_calls. simpl. lia.
Qed.

(** A first call on a fresh key with the cache storage and a view that
    answers with a success: the rendered response is stored with the
    timeout counted from [later], and returned unless the lease has run
    out. *)
Lemma timed_first_execution s view now later args kwargs w j mutex (st : Storage)
    response :
  prepare s args kwargs = Some j ->
  LOCK s = Ok mutex ->
  call_setting (STORAGE_CLASS s) = Ok CacheKeyStorage ->
  rlocks_fresh w ->
  lock_of mutex (job_key j) w ∉ held w ->
  lookup s now (job_key j) (job_body_hash j) w = inr st ->
  view_outcome view args kwargs (job_view_set j) (job_request j) (app w) = Ok response ->
  is_success (status_code response) = true ->
  exists w1 c,
    timed_wrapped_view s view now later args kwargs w
    = Some (if owned s (lock_of mutex (job_key j) w) now later
            then Ok (rendered response) else Raise LockNotOwnedError, w1)
    /\ caches w1 !! STORAGE_CACHE_NAME s
       = Some (cache_set later c (job_key j)
                 (pickle_dumps (job_body_hash j, rendered response))
                 (STORAGE_CACHE_TIMEOUT s))
    /\ held w1 = held w
    /\ rlocks_fresh w1
    /\ view_calls (log w1) = S (view_calls (log w)).
Proof.
  intros Hp Hlock Hs Hfresh Hfree Hmiss Hout Hok.
  destruct (cache_lookup_miss s now _ _ w st Hs Hmiss) as [-> [c Hc]].
  rewrite (timed_wrapped_view_locked s view now later args kwargs w j mutex Hp Hlock Hfree).
  unfold timed_section.
  rewrite (lookup_caches s now _ _ _ w (caches_entered mutex (job_key j) w)), Hmiss.
  pose proof (invoke_outcome view args kwargs (job_view_set j) (job_request j)
                (entered mutex (job_key j) w)) as Hx.
  rewrite app_entered, Hout, Hok in Hx.
  destruct (invoke view args kwargs (job_view_set j) (job_request j)
              (entered mutex (job_key j) w)) as [x w0] eqn:Hinv.
  destruct (invoke_frame _ _ _ _ _ _ _ _ Hinv) as (Hlog0 & Hc0 & Hh0 & Hr0 & Ha0).
  simpl in Hx. subst x.
  unfold store, Storage_set, caches_getitem.
  rewrite Hc0, caches_entered, Hc. simpl. fold (rendered response).
  set (w3 := set_caches _ w0).
  destruct (leave_frame s (lock_of mutex (job_key j) w) now later
              (Ok (rendered response)) w3) as (Hr & Hc3 & _ & _ & Hn & _).
  destruct (left_frame s mutex (job_key j) w now later (Ok (rendered response)) w3
              Hfree Hh0 Hr0) as [Hh Hf].
  destruct (leave s (lock_of mutex (job_key j) w) now later (Ok (rendered response)) w3)
    as [r' w1].
  simpl in *. subst r'. exists w1, c. split; [done|].
  split; [rewrite Hc3; unfold w3; simpl; by rewrite lookup_insert_eq|].
  split; [done|]. split; [by apply Hf|].
  rewrite Hn. unfold w3. simpl. rewrite Hlog0, log_entered, !view_calls_app.
  unfold view_calls. simpl. lia.
Qed.

(** X13: with the cache storage, a first call on a fresh key whose view
    answers with a success stores the rendered response; it returns that
    response when the lock is an RLock or the lease of the Redis lock has
    not run out when the call leaves the lock, and raises LockNotOwnedError
    when the lease has run out.  Either way a second call with the same
    arguments before the record expires, which leaves the lock within its
    own lease, returns the stored response without calling the view: the
    view is called once in all. *)
Lemma cache_storage_replays s view now later now' later' args kwargs w j mutex
    (st : Storage) response :
  (forall v, pickle_loads (pickle_dumps v) = Ok v) ->
  prepare s args kwargs = Some j ->
  LOCK s = Ok mutex ->
  (mutex = RedisLock -> whole_milliseconds (LOCK_TTL s)) ->
  call_setting (STORAGE_CLASS s) = Ok CacheKeyStorage ->
  rlocks_fresh w ->
  lock_of mutex (job_key j) w ∉ held w ->
  lookup s now (job_key j) (job_body_hash j) w = inr st ->
  view_outcome view args kwargs (job_view_set j) (job_request j) (app w) = Ok response ->
  is_success (status_code response) = true ->
  now' < later + STORAGE_CACHE_TIMEOUT s ->
  mutex = ThreadLock \/ later' < now' + LOCK_TTL s ->
  exists r1 w1 w2,
    timed_wrapped_view s view now later args kwargs w = Some (r1, w1)
    /\ (mutex = ThreadLock \/ later < now + LOCK_TTL s -> r1 = Ok (rendered response))
    /\ (mutex = RedisLock -> now + LOCK_TTL s < later -> r1 = Raise LockNotOwnedError)
    /\ timed_wrapped_view s view now' later' args kwargs w1
       = Some (Ok (rendered response), w2)
    /\ view_calls (log w2) = S (view_calls (log w))
    /\ app w2 = app w1 /\ caches w2 = caches w1.
Proof.
  intros Hpickle Hp Hlock _ Hs Hfresh Hfree Hmiss Hout Hok Hlt Hin2.
  destruct (timed_first_execution s view now later args kwargs w j mutex st response)
    as (w1 & c & Hcall1 & Hc1 & Hh1 & Hf1 & Hn1); try done.
  assert (lock_of mutex (job_key j) w1 ∉ held w1) as Hfree1.
  { by apply (next_lock_free mutex (job_key j) w w1). }
  destruct (timed_lookup_ends s view now' later' args kwargs w1 j mutex
              (Ok (rendered response)) Hp Hlock Hfree1)
    as (w2 & Hcall2 & Hc2 & Ha2 & Hh2 & Hn2).
  { by apply (cache_lookup_hit s later now' _ _ (rendered response) w1 c). }
  rewrite (owned_in_time s mutex _ w1 now' later' Hin2) in Hcall2.
  eexists _, w1, w2. split; [exact Hcall1|].
  split; [intros Hin; by rewrite (owned_in_time s mutex _ w now later Hin)|].
  split; [intros -> Hlate; by rewrite (owned_too_late s _ w now later Hlate)|].
  split; [done|]. split; [by rewrite Hn2|]. by split.
Qed.

(** ** Lines 17-18: the safe methods *)

(** A request with a safe method goes to the view at once; line 18 passes
    the keys of [kwargs] as further positional arguments, and no keyword
    arguments. *)
Lemma safe_method_call s view now args kwargs w view_set request :
  view_set_and_request args = Ok (view_set, request) ->
  method request ∈ SAFE_METHODS s ->
  wrapped_view s view now args kwargs w
  = Some (call_view view (args ++ star_keys kwargs) [] w).
Proof.
  intros Hargs Hsafe. unfold wrapped_view. by rewrite Hargs, bool_decide_true.
Qed.

(** Without keyword arguments the view gets the original arguments. *)
Lemma safe_method_no_kwargs s view now args w view_set request :
  view_set_and_request args = Ok (view_set, request) ->
  method request ∈ SAFE_METHODS s ->
  wrapped_view s view now args [] w = Some (call_view view args [] w).
Proof.
  intros Hargs Hsafe.
  rewrite (safe_method_call _ _ _ _ _ _ _ _ Hargs Hsafe). simpl.
  by rewrite app_nil_r.
Qed.

(** C6, the code on keyword arguments: a request with a safe method skips
    the idempotency logic (whatever the header holds; the caches and the
    locks are not touched) and the answer of the view is returned as it is,
    but the view is not called with the original arguments: it receives the
    keys of the keyword arguments as extra positional arguments and no
    keyword argument at all. *)
Theorem safe_method_keywords_as_positionals s view now args kwargs w view_set request :
  view_set_and_request args = Ok (view_set, request) ->
  method request ∈ SAFE_METHODS s ->
  exists w',
    wrapped_view s view now args kwargs w
    = Some ((view (args ++ star_keys kwargs) [] (app w)).1, w')
    /\ log w' = log w ++ [CallView (args ++ star_keys kwargs) []]
    /\ (kwargs ≠ [] -> CallView (args ++ star_keys kwargs) [] ≠ CallView args kwargs)
    /\ caches w' = caches w /\ held w' = held w /\ rlocks w' = rlocks w.
Proof.
  intros Hargs Hsafe.
  rewrite (safe_method_call _ _ _ _ _ _ _ _ Hargs Hsafe). unfold call_view.
  destruct (view (args ++ star_keys kwargs) [] (app w)) as [r a].
  eexists. repeat split; try done. intros Hk [= _ Hk']. congruence.
Qed.

(** ** locks.py *)

(** C7, the code: [ThreadLock.lock] does not look at the name.  Two calls
    with the same name give two different lock objects, and the second can
    be acquired while the first is held: acquisitions with one name do not
    contend. *)
Theorem thread_lock_same_name_no_contention name w :
  rlocks_fresh w ->
  exists l1 w1 w1' l2 w2,
    Lock_lock ThreadLock name w = (l1, w1)
    /\ acquire l1 w1 = Some w1'
    /\ Lock_lock ThreadLock name w1' = (l2, w2)
    /\ l1 ≠ l2
    /\ l1 ∈ held w2
    /\ is_Some (acquire l2 w2).
Proof.
  intros Hfresh. simpl.
  assert (RLockObj (rlocks w) ∉ held w) as Hfree.
  { intros Hin. specialize (Hfresh _ Hin). lia. }
  eexists _, _, _, _, _. split; [reflexivity|].
  split; [by apply acquire_free|]. split; [reflexivity|]. simpl.
  split; [intros [= Heq]; lia|]. split; [by left|].
  rewrite acquire_free; [done|]. simpl.
  apply not_elem_of_cons. split; [intros [= Heq]; lia|].
  intros Hin. specialize (Hfresh _ Hin). lia.
Qed.

(** The Redis lock is the lock of its name: a second acquisition with the
    same name waits while the first is held. *)
Lemma redis_lock_same_name_contends name w w1 :
  acquire (Lock_lock RedisLock name w).1 w = Some w1 ->
  acquire (Lock_lock RedisLock name w1).1 w1 = None.
Proof.
  simpl. unfold acquire. case_bool_decide; [done|]. intros [= <-]. simpl.
  rewrite bool_decide_true; [done | by left].
Qed.

(** ** utils.get_cache_key *)

Lemma append_assoc (a b c : string) : (a +:+ b) +:+ c = a +:+ (b +:+ c).
Proof.
  induction a as [|x a IH]; [done|].
  change (String x ((a +:+ b) +:+ c) = String x (a +:+ (b +:+ c))).
  by rewrite IH.
Qed.

(** C8, as amended: the cache key is the digest of the concatenation of the
    idempotency key, the path, the method and the text of the user id, in
    this order, each as its bytes; it depends on the request only through
    these; a user object without an id attribute contributes the empty
    string, and a user object with an id contributes str(id) (None gives
    the four letters of None). *)
Theorem get_cache_key_digest request k u :
  user request = Some u ->
  get_cache_key request (PyStr k)
  = Ok (sha256_hexdigest
          (k +:+ path_info request +:+ method request +:+ user_id_text u))
  /\ (forall request',
        path_info request' = path_info request ->
        method request' = method request ->
        user request' = user request ->
        get_cache_key request' (PyStr k) = get_cache_key request (PyStr k))
  /\ (user_id u = None -> user_id_text u = "")
  /\ (forall v, user_id u = Some v -> user_id_text u = py_str v).
Proof.
  intros Hu. split; [|split; [|split]].
  - unfold get_cache_key, getattr_user, sha256_update, sha256_new. rewrite Hu.
    cbn [bind encode]. by rewrite !append_assoc.
  - intros request' Hp Hm Hu'. unfold get_cache_key, getattr_user.
    by rewrite Hp, Hm, Hu'.
  - unfold user_id_text. by intros ->.
  - unfold user_id_text. by intros v ->.
Qed.

(** ** storages.py *)

(** C9, as amended: the cache storage writes the record with the configured
    timeout, a lookup before the timeout has passed returns the record and a
    lookup from then on is a miss; the in-process storage has no timeout: a
    record written to a storage object is returned by every later lookup on
    that object. *)
Theorem storage_expiry s now now' key value w (c : gmap string CacheEntry)
    (d : gmap string (string * Response)) :
  (forall v, pickle_loads (pickle_dumps v) = Ok v) ->
  caches w !! STORAGE_CACHE_NAME s = Some c ->
  (exists w',
     Storage_set now s (CacheStorage (STORAGE_CACHE_NAME s)) key value w
     = Ok (CacheStorage (STORAGE_CACHE_NAME s), w')
     /\ (now' < now + STORAGE_CACHE_TIMEOUT s ->
         Storage_get now' (CacheStorage (STORAGE_CACHE_NAME s)) key w'
         = Ok (Some value))
     /\ (now + STORAGE_CACHE_TIMEOUT s <= now' ->
         Storage_get now' (CacheStorage (STORAGE_CACHE_NAME s)) key w' = Ok None))
  /\ (exists st',
        Storage_set now s (MemoryStorage d) key value w = Ok (st', w)
        /\ Storage_get now' st' key w = Ok (Some value)).
Proof.
  intros Hpickle Hc. split.
  - unfold Storage_set, Storage_get, caches_getitem. rewrite Hc. simpl.
    eexists. split; [reflexivity|]. simpl. rewrite lookup_insert_eq. simpl.
    unfold cache_get, cache_set. rewrite lookup_insert_eq. simpl. split; intros Hlt.
    + rewrite bool_decide_true by done. by rewrite Hpickle.
    + rewrite bool_decide_false; [done|lia].
  - eexists. split; [reflexivity|]. simpl. by rewrite lookup_insert_eq.
Qed.

(** ** Calls in parallel *)

Lemma thread_step_lock s view now j w mutex :
  LOCK s = Ok mutex ->
  lock_of mutex (job_key j) w ∉ held w ->
  thread_step s view now j AtLock w
  = Some (AtLookup (lock_of mutex (job_key j) w), entered mutex (job_key j) w).
Proof.
  intros Hlock Hfree. unfold thread_step, lock_of, entered in *. rewrite Hlock.
  destruct (Lock_lock mutex ("Idempotency_" +:+ job_key j) w) as [l w1] eqn:Hl.
  pose proof (held_Lock_lock mutex ("Idempotency_" +:+ job_key j) w) as Hh.
  rewrite Hl in Hh. simpl in *. by rewrite acquire_free by (by rewrite Hh).
Qed.

Lemma thread_step_waits s view now j w mutex :
  LOCK s = Ok mutex ->
  lock_of mutex (job_key j) w ∈ held w ->
  thread_step s view now j AtLock w = None.
Proof.
  intros Hlock Hheld. unfold thread_step, lock_of in *. rewrite Hlock.
  destruct (Lock_lock mutex ("Idempotency_" +:+ job_key j) w) as [l w1] eqn:Hl.
  pose proof (held_Lock_lock mutex ("Idempotency_" +:+ job_key j) w) as Hh.
  rewrite Hl in Hh. simpl in *. by rewrite acquire_held by (by rewrite Hh).
Qed.

Lemma run_thread_step fuel s view now j (t t' : Thread) w w' :
  (forall r, t ≠ Finished r) ->
  thread_step s view now j t w = Some (t', w') ->
  run_thread (S fuel) s view now j t w = run_thread fuel s view now j t' w'.
Proof. intros Ht Hstep. destruct t; cbn [run_thread]; try by rewrite Hstep. by destruct (Ht r). Qed.

Lemma run_thread_finished fuel s view now j r w :
  run_thread fuel s view now j (Finished r) w = Some (r, w).
Proof. by destruct fuel. Qed.

(** The five steps of a call on its own are [wrapped_view]. *)
Lemma run_thread_wrapped_view s view now args kwargs w j :
  prepare s args kwargs = Some j ->
  run_thread 5 s view now j AtLock w = wrapped_view s view now args kwargs w.
Proof.
  intros Hp.
  destruct (prepare_Some _ _ _ _ Hp)
    as (view_set & request & Hargs & Hsafe & Hk & Hg & Hj).
  assert (job_args j = args) as Hja by (by rewrite Hj).
  assert (job_kwargs j = kwargs) as Hjk by (by rewrite Hj).
  destruct (LOCK s) as [mutex|e] eqn:Hlock.
  - destruct (decide (lock_of mutex (job_key j) w ∈ held w)) as [Hheld|Hfree].
    + rewrite (wrapped_view_waits s view now args kwargs w j mutex Hp Hlock Hheld).
      cbn [run_thread]. by rewrite (thread_step_waits s view now j w mutex Hlock Hheld).
    + rewrite (wrapped_view_locked s view now args kwargs w j mutex Hp Hlock Hfree).
      rewrite (run_thread_step 4 s view now j AtLock _ w _ ltac:(done)
                 (thread_step_lock s view now j w mutex Hlock Hfree)).
      unfold locked_section.
      destruct (lookup s now (job_key j) (job_body_hash j)
                  (entered mutex (job_key j) w)) as [r|storage] eqn:Hl.
      * erewrite run_thread_step; [|done|cbn [thread_step]; by rewrite Hl].
        erewrite run_thread_step; [|done|reflexivity].
        by rewrite run_thread_finished.
      * erewrite run_thread_step; [|done|cbn [thread_step]; by rewrite Hl].
        destruct (invoke view args kwargs (job_view_set j) (job_request j)
                    (entered mutex (job_key j) w)) as [[r|response] w1] eqn:Hi.
        -- erewrite run_thread_step;
             [|done|cbn [thread_step]; by rewrite Hja, Hjk, Hi].
           erewrite run_thread_step; [|done|reflexivity].
           by rewrite run_thread_finished.
        -- erewrite run_thread_step;
             [|done|cbn [thread_step]; by rewrite Hja, Hjk, Hi].
           destruct (store s now storage (job_key j) (job_body_hash j) response w1)
             as [r w3] eqn:Hs.
           erewrite run_thread_step; [|done|cbn [thread_step]; by rewrite Hs].
           erewrite run_thread_step; [|done|reflexivity].
           by rewrite run_thread_finished.
  - unfold wrapped_view. rewrite Hargs, bool_decide_false by done.
    rewrite Hk. simpl. by rewrite Hg, Hlock.
Qed.

Lemma pool_step_at s view now i w (pool : list (Job * Thread)) j (t t' : Thread) w' :
  pool !! i = Some (j, t) ->
  thread_step s view now j t w = Some (t', w') ->
  pool_step s view now i (w, pool) = Some (w', <[i := (j, t')]> pool).
Proof. intros Hi Hstep. unfold pool_step. by rewrite Hi, Hstep. Qed.

Lemma run_schedule_cons s view now i rest (st st' : World * list (Job * Thread)) :
  pool_step s view now i st = Some st' ->
  run_schedule s view now (i :: rest) st = run_schedule s view now rest st'.
Proof. intros Hstep. cbn [run_schedule]. by rewrite Hstep. Qed.

(** C2, the code on the thread lock: with LOCK_CLASS resolving to
    ThreadLock, two calls with the same fresh cache key are not serialized.
    In the schedule where both enter their lock, both look the key up, and
    both call the view, each lookup is a miss and the view is called
    twice. *)
Theorem thread_lock_two_calls_both_run_view s view now w j (st : Storage) :
  LOCK s = Ok ThreadLock ->
  rlocks_fresh w ->
  lookup s now (job_key j) (job_body_hash j) w = inr st ->
  exists w' l0 l1 t0 t1,
    run_schedule s view now [0; 1; 0; 1; 0; 1]%nat (w, [(j, AtLock); (j, AtLock)])
    = Some (w', [(j, t0); (j, t1)])
    /\ l0 ≠ l1 /\ l0 ∈ held w' /\ l1 ∈ held w'
    /\ view_calls (log w') = S (S (view_calls (log w))).
Proof.
  intros Hlock Hfresh Hmiss.
  set (key := job_key j).
  assert (lock_of ThreadLock key w ∉ held w) as Hfree0.
  { intros Hin. specialize (Hfresh _ Hin). lia. }
  set (wA := entered ThreadLock key w).
  assert (lock_of ThreadLock key wA ∉ held wA) as Hfree1.
  { unfold wA. rewrite held_entered. unfold lock_of. simpl. apply not_elem_of_cons.
    split; [intros [= Heq]; lia|]. intros Hin. specialize (Hfresh _ Hin). lia. }
  set (wB := entered ThreadLock key wA).
  assert (caches wB = caches w) as HcB by done.
  assert (lookup s now key (job_body_hash j) wB = inr st) as HmissB.
  { by rewrite (lookup_caches s now key _ wB w HcB). }
  destruct (invoke view (job_args j) (job_kwargs j) (job_view_set j) (job_request j) wB)
    as [x0 wC] eqn:Hinv0.
  destruct (invoke view (job_args j) (job_kwargs j) (job_view_set j) (job_request j) wC)
    as [x1 wD] eqn:Hinv1.
  destruct (invoke_frame _ _ _ _ _ _ _ _ Hinv0) as (HlC & HcC & HhC & _).
  destruct (invoke_frame _ _ _ _ _ _ _ _ Hinv1) as (HlD & HcD & HhD & _).
  set (t0 := match x0 with
              | inl r => AtExit (lock_of ThreadLock key w) r
              | inr response => AtStore (lock_of ThreadLock key w) st response
              end).
  set (t1 := match x1 with
              | inl r => AtExit (lock_of ThreadLock key wA) r
              | inr response => AtStore (lock_of ThreadLock key wA) st response
              end).
  assert (thread_step s view now j (AtInvoke (lock_of ThreadLock key w) st) wB
          = Some (t0, wC)) as Hstep0.
  { cbn [thread_step]. rewrite Hinv0. unfold t0. by destruct x0. }
  assert (thread_step s view now j (AtInvoke (lock_of ThreadLock key wA) st) wC
          = Some (t1, wD)) as Hstep1.
  { cbn [thread_step]. rewrite Hinv1. unfold t1. by destruct x1. }
  exists wD, (lock_of ThreadLock key w), (lock_of ThreadLock key wA), t0, t1.
  split; [|split; [|split; [|split]]].
  - erewrite run_schedule_cons;
      [|eapply pool_step_at; [reflexivity|];
        apply (thread_step_lock s view now j w ThreadLock Hlock Hfree0)].
    erewrite run_schedule_cons;
      [|eapply pool_step_at; [reflexivity|];
        apply (thread_step_lock s view now j wA ThreadLock Hlock Hfree1)].
    erewrite run_schedule_cons;
      [|eapply pool_step_at; [reflexivity|];
        cbn [thread_step]; fold key wA wB; by rewrite HmissB].
    erewrite run_schedule_cons;
      [|eapply pool_step_at; [reflexivity|];
        cbn [thread_step]; fold key wA wB; by rewrite HmissB].
    erewrite run_schedule_cons;
      [|eapply pool_step_at; [reflexivity|]; apply Hstep0].
    erewrite run_schedule_cons;
      [|eapply pool_step_at; [reflexivity|]; apply Hstep1].
    reflexivity.
  - simpl. intros [= Heq]. lia.
  - rewrite HhD, HhC. unfold wB. rewrite held_entered. right.
    unfold wA. rewrite held_entered. by left.
  - rewrite HhD, HhC. unfold wB. rewrite held_entered. by left.
  - rewrite HlD, HlC. unfold wB. rewrite log_entered. unfold wA. rewrite log_entered.
    rewrite !view_calls_app. unfold view_calls. simpl. lia.
Qed.

(** ** Calls in parallel, in time *)

Lemma timed_run_thread_step fuel s view now later i j (t t' : Thread)
    (st st' : World * gmap string (nat * Z)) :
  (forall r, t ≠ Finished r) ->
  timed_thread_step s view (step_time now later t) i j t st = Some (t', st') ->
  timed_run_thread (S fuel) s view now later i j t st
  = timed_run_thread fuel s view now later i j t' st'.
Proof.
  intros Ht Hstep. destruct t; cbn [timed_run_thread]; try by rewrite Hstep.
  by destruct (Ht r).
Qed.

Lemma timed_run_thread_finished fuel s view now later i j r
    (st : World * gmap string (nat * Z)) :
  timed_run_thread fuel s view now later i j (Finished r) st = Some (r, st).
Proof. by destruct fuel. Qed.

(** Entering a lock that is free, and leaving it, as [acquire] and [leave]
    do for a call on its own. *)
Lemma timed_acquire_free s now i mutex key w (redis : gmap string (nat * Z)) :
  lock_of mutex key w ∉ held w ->
  redis !! ("Idempotency_" +:+ key) = None ->
  timed_acquire s now i (lock_of mutex key w)
    ((Lock_lock mutex ("Idempotency_" +:+ key) w).2, redis)
  = Some (entered mutex key w,
          match mutex with
          | ThreadLock => redis
          | RedisLock => <["Idempotency_" +:+ key := (i, now + LOCK_TTL s)]> redis
          end).
Proof.
  intros Hfree Hnone. destruct mutex; unfold lock_of, entered in *; simpl in *.
  - unfold acquire. simpl. by rewrite bool_decide_false.
  - unfold lease_running. rewrite Hnone. by rewrite filter_other_id.
Qed.

Lemma timed_leave_own s now later i mutex key (r : Result Response) w w3
    (redis : gmap string (nat * Z)) :
  redis !! ("Idempotency_" +:+ key) = None ->
  timed_leave later i (lock_of mutex key w) r
    (w3, match mutex with
         | ThreadLock => redis
         | RedisLock => <["Idempotency_" +:+ key := (i, now + LOCK_TTL s)]> redis
         end)
  = ((leave s (lock_of mutex key w) now later r w3).1,
     ((leave s (lock_of mutex key w) now later r w3).2, redis)).
Proof.
  intros Hnone. destruct mutex; unfold lock_of, leave; simpl; [done|].
  rewrite lookup_insert_eq, bool_decide_true by done.
  rewrite delete_insert_id by done.
  by case_bool_decide.
Qed.

(** The steps of a call on its own are [timed_wrapped_view]. *)
Lemma timed_run_thread_wrapped_view s view now later i args kwargs w j mutex
    (redis : gmap string (nat * Z)) :
  prepare s args kwargs = Some j ->
  LOCK s = Ok mutex ->
  lock_of mutex (job_key j) w ∉ held w ->
  redis !! ("Idempotency_" +:+ job_key j) = None ->
  timed_run_thread 5 s view now later i j AtLock (w, redis)
  = match timed_wrapped_view s view now later args kwargs w with
    | Some (r, w') => Some (r, (w', redis))
    | None => None
    end.
Proof.
  intros Hp Hlock Hfree Hnone.
  destruct (prepare_Some _ _ _ _ Hp)
    as (view_set & request & Hargs & Hsafe & Hk & Hg & Hj).
  assert (job_args j = args) as Hja by (by rewrite Hj).
  assert (job_kwargs j = kwargs) as Hjk by (by rewrite Hj).
  rewrite (timed_wrapped_view_locked s view now later args kwargs w j mutex Hp Hlock Hfree).
  set (redis1 := match mutex with
                 | ThreadLock => redis
                 | RedisLock =>
                     <["Idempotency_" +:+ job_key j := (i, now + LOCK_TTL s)]> redis
                 end).
  assert (timed_thread_step s view now i j AtLock (w, redis)
          = Some (AtLookup (lock_of mutex (job_key j) w),
                  (entered mutex (job_key j) w, redis1))) as Hstep.
  { cbn [timed_thread_step]. rewrite Hlock. cbn [fst snd].
    pose proof (timed_acquire_free s now i mutex (job_key j) w redis Hfree Hnone) as Ha.
    unfold lock_of in *.
    destruct (Lock_lock mutex ("Idempotency_" +:+ job_key j) w) as [l w1].
    cbn [fst snd] in *. by rewrite Ha. }
  rewrite (timed_run_thread_step 4 s view now later i j AtLock _ _ _ ltac:(done) Hstep).
  assert (forall (r : Result Response) w3,
            timed_run_thread 1 s view now later i j
              (AtExit (lock_of mutex (job_key j) w) r) (w3, redis1)
            = Some ((leave s (lock_of mutex (job_key j) w) now later r w3).1,
                    ((leave s (lock_of mutex (job_key j) w) now later r w3).2, redis)))
    as Hexit.
  { intros r w3. cbn [timed_run_thread step_time timed_thread_step].
    unfold redis1. by rewrite (timed_leave_own s now later i mutex (job_key j) r w w3 redis Hnone). }
  assert (forall fuel (r : Result Response) w3,
            timed_run_thread (S fuel) s view now later i j
              (AtExit (lock_of mutex (job_key j) w) r) (w3, redis1)
            = Some ((leave s (lock_of mutex (job_key j) w) now later r w3).1,
                    ((leave s (lock_of mutex (job_key j) w) now later r w3).2, redis)))
    as Hexit'.
  { intros fuel r w3. rewrite <- (Hexit r w3). cbn [timed_run_thread].
    destruct (timed_thread_step s view (step_time now later (AtExit _ r)) i j
                (AtExit (lock_of mutex (job_key j) w) r) (w3, redis1))
      as [[t' st']|] eqn:Hs; [|done].
    cbn [timed_thread_step] in Hs.
    destruct (timed_leave _ i _ r (w3, redis1)) as [r' st'']. injection Hs as <- <-.
    by rewrite !timed_run_thread_finished. }
  unfold timed_section.
  destruct (lookup s now (job_key j) (job_body_hash j)
              (entered mutex (job_key j) w)) as [r|storage] eqn:Hl.
  - erewrite timed_run_thread_step;
      [|done|cbn [timed_thread_step step_time fst]; by rewrite Hl].
    rewrite Hexit'. by destruct (leave _ _ _ _ _ _).
  - erewrite timed_run_thread_step;
      [|done|cbn [timed_thread_step step_time fst]; by rewrite Hl].
    destruct (invoke view args kwargs (job_view_set j) (job_request j)
                (entered mutex (job_key j) w)) as [[r|response] w1] eqn:Hi.
    + erewrite timed_run_thread_step;
        [|done|cbn [timed_thread_step step_time fst snd]; by rewrite Hja, Hjk, Hi].
      rewrite Hexit'. by destruct (leave _ _ _ _ _ _).
    + erewrite timed_run_thread_step;
        [|done|cbn [timed_thread_step step_time fst snd]; by rewrite Hja, Hjk, Hi].
      destruct (store s later storage (job_key j) (job_body_hash j) response w1)
        as [r w3] eqn:Hs.
      erewrite timed_run_thread_step;
        [|done|cbn [timed_thread_step step_time fst snd]; by rewrite Hs].
      rewrite Hexit'. by destruct (leave _ _ _ _ _ _).
Qed.

Lemma timed_pool_step_at s view i now (st st' : World * gmap string (nat * Z))
    (pool : list (Job * Thread)) j (t t' : Thread) :
  pool !! i = Some (j, t) ->
  timed_thread_step s view now i j t st = Some (t', st') ->
  timed_pool_step s view i now (st, pool) = Some (st', <[i := (j, t')]> pool).
Proof. intros Hi Hstep. unfold timed_pool_step. simpl. by rewrite Hi, Hstep. Qed.

(** ** Single flight under a lock that is keyed by name

    With the Redis lock, the cache storage and a view that answers with a
    success, the calls that share a fresh key are serialized, whatever the
    schedule, as long as the run is over before a lease taken or a record
    stored during the run can end: every step is taken within LOCK_TTL and
    within STORAGE_CACHE_TIMEOUT of the start. *)

Section SingleFlight.
Variables (s : UserSettings) (view : View) (start : Z) (j : Job) (st : Storage).
Variable base : nat.
Hypothesis pickle_round_trip : forall v, pickle_loads (pickle_dumps v) = Ok v.
Hypothesis lock_is_redis : LOCK s = Ok RedisLock.
Hypothesis storage_is_cache : call_setting (STORAGE_CLASS s) = Ok CacheKeyStorage.
Hypothesis view_succeeds :
  forall a, exists response,
    view_outcome view (job_args j) (job_kwargs j) (job_view_set j) (job_request j) a
    = Ok response
    /\ is_success (status_code response) = true.

Lemma world_ok_frame stage w w' :
  caches w' = caches w -> view_calls (log w') = view_calls (log w) ->
  world_ok s start j st base stage w -> world_ok s start j st base stage w'.
Proof.
  intros Hc Hl. unfold world_ok. destruct stage.
  - by rewrite (lookup_caches s start (job_key j) (job_body_hash j) w' w Hc), Hl.
  - by rewrite (lookup_caches s start (job_key j) (job_body_hash j) w' w Hc), Hl.
  - rewrite Hl. intros [Hhit Hn]. split; [|done]. intros now Hnow.
    rewrite (lookup_caches s now (job_key j) (job_body_hash j) w' w Hc). by apply Hhit.
Qed.

Lemma pool_insert_lookup (pool : list (Job * Thread)) i k (x y : Job * Thread) :
  <[i := x]> pool !! k = Some y -> (k = i /\ y = x) \/ (k ≠ i /\ pool !! k = Some y).
Proof.
  intros [(-> & -> & _)|(Hne & Hk)]%list_lookup_insert_Some; [by left|].
  right. split; [congruence|done].
Qed.

(** Writing the record makes the lookup a hit for the rest of the window. *)
Lemma store_stored now response w :
  in_window s start now ->
  lookup s start (job_key j) (job_body_hash j) w = inr st ->
  exists w',
    store s now st (job_key j) (job_body_hash j) response w
    = (Ok (rendered response), w')
    /\ (forall now', in_window s start now' ->
          lookup s now' (job_key j) (job_body_hash j) w' = inl (Ok (rendered response)))
    /\ log w' = log w.
Proof.
  intros (Hle & _ & _) Hmiss.
  destruct (cache_lookup_miss s start _ _ w st storage_is_cache Hmiss) as [-> [c Hc]].
  unfold store, Storage_set, caches_getitem. rewrite Hc. simpl.
  fold (rendered response). eexists. split; [reflexivity|].
  split; [|done]. intros now' (_ & _ & Hlt).
  apply (cache_lookup_hit s now now' _ _ _ _ c pickle_round_trip storage_is_cache);
    [|lia].
  simpl. by rewrite lookup_insert_eq.
Qed.

(** A call at the lock enters when the lock is free and waits while the
    lease of another call runs. *)
Lemma timed_step_enters now i w (redis : gmap string (nat * Z)) :
  redis !! ("Idempotency_" +:+ job_key j) = None ->
  exists w',
    timed_thread_step s view now i j AtLock (w, redis)
    = Some (AtLookup (RedisLockObj ("Idempotency_" +:+ job_key j)),
            (w', <["Idempotency_" +:+ job_key j := (i, now + LOCK_TTL s)]> redis))
    /\ caches w' = caches w /\ view_calls (log w') = view_calls (log w).
Proof.
  intros Hnone. cbn [timed_thread_step]. rewrite lock_is_redis. simpl.
  unfold lease_running. rewrite Hnone. eexists. split; [reflexivity|].
  split; [done|]. simpl. rewrite view_calls_app. unfold view_calls. simpl. lia.
Qed.

Lemma timed_step_waits now i w (redis : gmap string (nat * Z)) holder ends :
  redis !! ("Idempotency_" +:+ job_key j) = Some (holder, ends) ->
  now < ends ->
  timed_thread_step s view now i j AtLock (w, redis) = None.
Proof.
  intros Hsome Hlt. cbn [timed_thread_step]. rewrite lock_is_redis. simpl.
  unfold lease_running. rewrite Hsome. by rewrite bool_decide_true.
Qed.

(** Every step within the window keeps the invariant. *)
Lemma single_flight_step i now
    (state state' : (World * gmap string (nat * Z)) * list (Job * Thread)) :
  in_window s start now ->
  single_flight s start j st base state ->
  timed_pool_step s view i now state = Some state' ->
  single_flight s start j st base state'.
Proof.
  destruct state as [[w redis] pool]. intros Hnow (stage & Hw & Hcases) Hstep.
  unfold timed_pool_step in Hstep. simpl in Hw, Hcases, Hstep.
  destruct (pool !! i) as [[j' t]|] eqn:Hi; [|done].
  destruct (timed_thread_step s view now i j' t (w, redis)) as [[t' [w' redis']]|] eqn:Hts;
    [|done].
  injection Hstep as <-.
  pose proof (lookup_lt_Some _ _ _ Hi) as Hlen.
  set (name := "Idempotency_" +:+ job_key j) in *.
  destruct Hcases as [(Hfree & Hnc & Hall)|(i0 & t0 & ends & Hheld & Hends & Hi0 & Hin & Hothers)].
  - (* the lock is free: only a call at the lock can move, and it enters *)
    destruct (Hall i _ Hi) as [Hj Hout]. simpl in Hj, Hout. subst j'.
    assert (t = AtLock) as ->.
    { destruct stage; simpl in Hout; try done.
      destruct Hout as [->| ->]; [done|]. by simpl in Hts. }
    destruct (timed_step_enters now i w redis Hfree) as (w1 & Hs1 & Hc1 & Hn1).
    rewrite Hs1 in Hts. injection Hts as <- <- <-.
    exists stage. split.
    { cbn [fst]. by apply (world_ok_frame stage w). }
    right. cbn [fst snd]. exists i, (AtLookup (RedisLockObj name)), (now + LOCK_TTL s).
    split; [by rewrite lookup_insert_eq|].
    split; [destruct Hnow; lia|].
    split; [by apply list_lookup_insert_eq|].
    split.
    { destruct stage as [|response|r]; simpl; [by left| |by left].
      by destruct (Hnc response). }
    intros k jt Hk Hlk. rewrite list_lookup_insert_ne in Hlk by done. eauto.
  - (* the lock is held: only the call inside can move *)
    assert (now < ends) as Hlive by (destruct Hnow as (_ & ? & _); lia).
    destruct (decide (i = i0)) as [->|Hne].
    2:{ destruct (Hothers i _ Hne Hi) as [Hj Hout]. simpl in Hj, Hout. subst j'.
        assert (timed_thread_step s view now i j t (w, redis) = None) as Hnone.
        { destruct stage; simpl in Hout;
            try (subst t; by apply (timed_step_waits now i w redis i0 ends)).
          destruct Hout as [->| ->];
            [by apply (timed_step_waits now i w redis i0 ends)|done]. }
        congruence. }
    rewrite Hi in Hi0. injection Hi0 as -> ->.
    assert (forall stage' t1 w1,
              world_ok s start j st base stage' w1 ->
              inside_ok (RedisLockObj name) st stage' t1 ->
              (forall t2, outside_ok stage t2 -> outside_ok stage' t2) ->
              single_flight s start j st base ((w1, redis), <[i0 := (j, t1)]> pool))
      as Hstay.
    { intros stage' t1 w1 Hw1 Hin1 Hmono. exists stage'. split; [done|].
      right. cbn [fst snd]. exists i0, t1, ends. split; [done|]. split; [done|].
      split; [by apply list_lookup_insert_eq|]. split; [done|].
      intros k jt Hk Hlk. rewrite list_lookup_insert_ne in Hlk by done.
      destruct (Hothers k jt Hk Hlk). split; [done|]. by apply Hmono. }
    destruct stage as [|response|r]; simpl in Hin, Hw.
    + destruct Hw as [Hmiss Hcalls]. destruct Hin as [-> | ->].
      * cbn [timed_thread_step fst] in Hts.
        rewrite (lookup_miss_later s start now _ _ w w st) in Hts;
          [|by destruct Hnow|done|done].
        injection Hts as <- <- <-.
        apply (Hstay NoRecord); simpl; auto.
      * cbn [timed_thread_step fst snd] in Hts.
        pose proof (invoke_outcome view (job_args j) (job_kwargs j) (job_view_set j)
                      (job_request j) w) as Hout.
        destruct (view_succeeds (app w)) as (response & Hv & Hok).
        rewrite Hv, Hok in Hout.
        destruct (invoke view (job_args j) (job_kwargs j) (job_view_set j)
                    (job_request j) w) as [x w1] eqn:Hinv.
        simpl in Hout. subst x. injection Hts as <- <- <-.
        destruct (invoke_frame _ _ _ _ _ _ _ _ Hinv) as (Hl1 & Hc1 & Hh1 & _).
        apply (Hstay (Called response)); simpl; auto.
        split; [by rewrite (lookup_caches s start _ _ w1 w Hc1)|]. split; [|done].
        rewrite Hl1, view_calls_app, Hcalls. unfold view_calls. simpl. lia.
    + destruct Hw as (Hmiss & Hcalls & Hok). subst t0.
      cbn [timed_thread_step fst snd] in Hts.
      destruct (store_stored now response w Hnow Hmiss) as (w1 & Hst & Hhit & Hl1).
      rewrite Hst in Hts. injection Hts as <- <- <-.
      apply (Hstay (Stored (rendered response))); simpl; auto.
      split; [done|]. by rewrite Hl1.
    + destruct Hw as [Hhit Hcalls]. destruct Hin as [-> | ->].
      * cbn [timed_thread_step fst] in Hts. rewrite (Hhit now Hnow) in Hts.
        injection Hts as <- <- <-.
        apply (Hstay (Stored r)); simpl; auto.
      * cbn [timed_thread_step timed_leave snd] in Hts. rewrite Hheld in Hts.
        rewrite !bool_decide_true in Hts by done.
        injection Hts as <- <- <-.
        exists (Stored r). split.
        { simpl. split; [done|]. rewrite view_calls_app, Hcalls.
          unfold view_calls. simpl. lia. }
        left. cbn [fst snd]. split; [by rewrite lookup_delete_eq|]. split; [done|].
        intros k jt [[-> ->]|[Hk Hlk]]%pool_insert_lookup; [by split; [|right]|].
        eauto.
Qed.

(** The invariant holds along every schedule within the window. *)
Lemma single_flight_run schedule
    (state state' : (World * gmap string (nat * Z)) * list (Job * Thread)) :
  Forall (fun step => in_window s start step.2) schedule ->
  single_flight s start j st base state ->
  timed_run_schedule s view schedule state = Some state' ->
  single_flight s start j st base state'.
Proof.
  revert state. induction schedule as [|[i now] rest IH]; intros state Hwin Hinv Hrun.
  - by injection Hrun as <-.
  - cbn [timed_run_schedule] in Hrun.
    destruct (timed_pool_step s view i now state) as [state1|] eqn:Hstep; [|done].
    apply Forall_cons in Hwin as [Hnow Hrest].
    apply (IH state1); [done| |done]. by apply (single_flight_step i now state).
Qed.

(** Before the run: the key is fresh, the lock is free, and every call
    stands at the lock. *)
Lemma single_flight_start w (redis : gmap string (nat * Z)) n :
  lookup s start (job_key j) (job_body_hash j) w = inr st ->
  view_calls (log w) = base ->
  redis !! ("Idempotency_" +:+ job_key j) = None ->
  single_flight s start j st base ((w, redis), replicate n (j, AtLock)).
Proof.
  intros Hmiss Hcalls Hfree. exists NoRecord. split; [done|]. left. simpl.
  split; [done|]. split; [done|].
  by intros k jt [-> _]%lookup_replicate.
Qed.

(** What the invariant says of the calls and responses. *)
Lemma single_flight_result (state : (World * gmap string (nat * Z)) * list (Job * Thread)) :
  single_flight s start j st base state ->
  (view_calls (log state.1.1) <= S base)%nat
  /\ (forall i k j1 j2 r1 r2,
        state.2 !! i = Some (j1, Finished r1) ->
        state.2 !! k = Some (j2, Finished r2) ->
        r1 = r2 /\ view_calls (log state.1.1) = S base).
Proof.
  intros (stage & Hw & Hcases). split.
  - destruct stage; simpl in Hw; destruct Hw as (_ & Hc & _) || destruct Hw as (_ & Hc); lia.
  - assert (forall i j1 r1, state.2 !! i = Some (j1, Finished r1) ->
              exists r, stage = Stored r /\ r1 = Ok r) as Hfin.
    { intros i j1 r1 Hi.
      destruct Hcases as [(_ & _ & Hall)|(i0 & t0 & ends & _ & _ & Hi0 & Hin & Hothers)].
      - destruct (Hall i _ Hi) as [_ Hout]. simpl in Hout.
        destruct stage as [| |r]; simpl in Hout; try done.
        destruct Hout as [|[= ->]]; [done|]. by exists r.
      - destruct (decide (i = i0)) as [->|Hne].
        + rewrite Hi in Hi0. injection Hi0 as -> <-.
          destruct stage; simpl in Hin; try done; by destruct Hin.
        + destruct (Hothers i _ Hne Hi) as [_ Hout]. simpl in Hout.
          destruct stage as [| |r]; simpl in Hout; try done.
          destruct Hout as [|[= ->]]; [done|]. by exists r. }
    intros i k j1 j2 r1 r2 Hi Hk.
    destruct (Hfin i j1 r1 Hi) as (r & -> & ->).
    destruct (Hfin k j2 r2 Hk) as (r' & [= <-] & ->).
    split; [done|]. by destruct Hw.
Qed.

End SingleFlight.



End Properties.

(** * The properties on the order service *)

Section Examples.
#[local] Existing Instance order_runtime.

Lemma fresh_world_rlocks_fresh : rlocks_fresh fresh_world.
Proof. by intros i Hi%elem_of_nil. Qed.

(** The idempotent replay with the cache storage: the second call returns
    the stored response, one order is created. *)
Example cache_storage_replays_order :
  exists w1 w2,
    wrapped_view function_settings create_order 0
      [ORequest (post_order "item=x")] [] fresh_world = Some (Ok order_42, w1)
    /\ wrapped_view function_settings create_order 5
         [ORequest (post_order "item=x")] [] w1 = Some (Ok order_42, w2)
    /\ app w2 = 1%nat.
Proof. eexists _, _. split; [|split]; vm_compute; reflexivity. Qed.

(** C1 at the failing input: the settings with MemoryKeyStorage, the same
    POST twice. *)
Lemma memory_storage_second_call_runs_view_witness :
  exists r1 w1 r2 w2,
    wrapped_view memory_settings create_order 0
      [ORequest (post_order "item=x")] [] fresh_world = Some (r1, w1)
    /\ wrapped_view memory_settings create_order 5
         [ORequest (post_order "item=x")] [] w1 = Some (r2, w2)
    /\ view_calls (log w2) = S (S (view_calls (log fresh_world))).
Proof.
  apply (memory_storage_second_call_runs_view memory_settings create_order 0 5
           [ORequest (post_order "item=x")] [] fresh_world (order_job "item=x")
           ThreadLock).
  - vm_compute. reflexivity.
  - reflexivity.
  - reflexivity.
  - apply fresh_world_rlocks_fresh.
  - apply not_elem_of_nil.
Defined.

(** The two calls create two orders and answer differently. *)
Example memory_storage_creates_two_orders :
  exists w1 w2,
    wrapped_view memory_settings create_order 0
      [ORequest (post_order "item=x")] [] fresh_world = Some (Ok order_42, w1)
    /\ wrapped_view memory_settings create_order 5
         [ORequest (post_order "item=x")] [] w1
       = Some (Ok (mkResponse 201 [] "order 43" NoRender), w2)
    /\ app w2 = 2%nat.
Proof. eexists _, _. split; [|split]; vm_compute; reflexivity. Qed.

(** C2 at the failing input: the default lock class, two calls with the
    same fresh key. *)
Lemma thread_lock_two_calls_both_run_view_witness :
  exists w' l0 l1 t0 t1,
    run_schedule function_settings create_order 0 [0; 1; 0; 1; 0; 1]%nat
      (fresh_world, [(order_job "item=x", AtLock); (order_job "item=x", AtLock)])
    = Some (w', [(order_job "item=x", t0); (order_job "item=x", t1)])
    /\ l0 ≠ l1 /\ l0 ∈ held w' /\ l1 ∈ held w'
    /\ view_calls (log w') = S (S (view_calls (log fresh_world))).
Proof.
  apply (thread_lock_two_calls_both_run_view function_settings create_order 0
           fresh_world (order_job "item=x") (CacheStorage "default")).
  - reflexivity.
  - apply fresh_world_rlocks_fresh.
  - vm_compute. reflexivity.
Defined.

(** Run to the end, the two calls have created two orders and return
    different responses. *)
Example thread_lock_two_orders :
  exists w' pool',
    run_schedule function_settings create_order 0 [0; 1; 0; 1; 0; 1; 0; 1; 0; 1]%nat
      (fresh_world, [(order_job "item=x", AtLock); (order_job "item=x", AtLock)])
    = Some (w', pool')
    /\ responses pool'
       = [Some (Ok order_42); Some (Ok (mkResponse 201 [] "order 43" NoRender))]
    /\ app w' = 2%nat /\ held w' = [].
Proof. eexists _, _. split; [|split; [|split]]; vm_compute; reflexivity. Qed.

(** With the Redis lock the second call cannot enter while the lease of the
    first is running. *)
Example redis_lock_second_call_waits :
  timed_run_schedule redis_settings create_order [(0%nat, 0); (1%nat, 1000)]
    ((fresh_world, ∅), [(order_job "item=x", AtLock); (order_job "item=x", AtLock)])
  = None.
Proof. vm_compute. reflexivity. Qed.

(** Run to the end under the Redis lock, within the lease, the two calls
    have created one order and return the same response. *)
Example redis_lock_one_order :
  exists w' redis' pool',
    timed_run_schedule redis_settings create_order
      [(0%nat, 0); (0%nat, 1000); (0%nat, 2000); (0%nat, 2000000); (0%nat, 2001000);
       (1%nat, 2002000); (1%nat, 2003000); (1%nat, 2004000)]
      ((fresh_world, ∅), [(order_job "item=x", AtLock); (order_job "item=x", AtLock)])
    = Some ((w', redis'), pool')
    /\ responses pool' = [Some (Ok order_42); Some (Ok order_42)]
    /\ app w' = 1%nat /\ held w' = [] /\ redis' = ∅.
Proof. eexists _, _, _. split; [|split; [|split; [|split]]]; vm_compute; reflexivity. Qed.

(** A view that outlasts the lease of five minutes: the second call enters
    while the first is still inside, finds no record and creates a second
    order; the first call, on leaving, gets LockNotOwnedError. *)
Example lease_overrun_two_orders :
  exists w' redis' pool',
    timed_run_schedule redis_settings create_order
      [(0%nat, 0); (0%nat, 1000); (0%nat, 2000);
       (1%nat, 301000000); (1%nat, 301001000); (1%nat, 301002000);
       (0%nat, 302000000); (0%nat, 302001000);
       (1%nat, 303000000); (1%nat, 303001000)]
      ((fresh_world, ∅), [(order_job "item=x", AtLock); (order_job "item=x", AtLock)])
    = Some ((w', redis'), pool')
    /\ responses pool'
       = [Some (Raise LockNotOwnedError);
          Some (Ok (mkResponse 201 [] "order 43" NoRender))]
    /\ app w' = 2%nat.
Proof. eexists _, _, _. split; [|split]; vm_compute; reflexivity. Qed.

(** C3 at the failing input: the key function is set, the response function
    is left to its default, and the key is reused with another body. *)
Lemma conflict_default_function_raises_witness :
  exists w',
    wrapped_view key_function_settings create_order 5
      [ORequest (post_order "item=y")] [] world_with_record
    = Some (Raise TypeError, w')
    /\ caches w' = caches world_with_record /\ app w' = app world_with_record
    /\ held w' = held world_with_record
    /\ view_calls (log w') = view_calls (log world_with_record).
Proof.
  apply (conflict_default_function_raises key_function_settings create_order 5
           [ORequest (post_order "item=y")] [] world_with_record
           (order_job "item=y") ThreadLock (CacheStorage "default")
           "sha256(item=x)" order_42).
  - vm_compute. reflexivity.
  - reflexivity.
  - apply not_elem_of_nil.
  - vm_compute. reflexivity.
  - vm_compute. reflexivity.
  - discriminate.
  - reflexivity.
Defined.

(** With the response function in the settings, the same call is answered
    with status 400 and the conflict message. *)
Example conflict_answered_400 :
  exists w',
    wrapped_view function_settings create_order 5
      [ORequest (post_order "item=y")] [] world_with_record
    = Some (Ok (bad_response function_settings conflict_message), w')
    /\ status_code (bad_response function_settings conflict_message) = 400
    /\ app w' = 1%nat.
Proof. eexists. split; [|split]; vm_compute; reflexivity. Qed.

(** C4 at the failing input: no settings at all, a POST without the
    header. *)
Lemma missing_key_default_function_raises_witness :
  wrapped_view no_user_settings create_order 0 [ORequest post_without_key] []
    fresh_world
  = Some (Raise TypeError, fresh_world).
Proof.
  apply (missing_key_default_function_raises no_user_settings create_order 0
           [ORequest post_without_key] [] fresh_world None post_without_key).
  - reflexivity.
  - vm_compute. intros Hin. repeat (apply elem_of_cons in Hin as [Hin|Hin]; [discriminate|]).
    by apply elem_of_nil in Hin.
  - vm_compute. reflexivity.
  - reflexivity.
Defined.

(** With the response function in the settings, the same call is answered
    with status 400 and the missing-key message. *)
Example missing_key_answered_400 :
  wrapped_view function_settings create_order 0 [ORequest post_without_key] []
    fresh_world
  = Some (Ok (bad_response function_settings missing_key_message), fresh_world)
  /\ status_code (bad_response function_settings missing_key_message) = 400.
Proof. split; vm_compute; reflexivity. Qed.



(** The same call, as it returns. *)
Example refusal_reaches_caller :
  exists w1,
    timed_wrapped_view redis_settings reject_order 0 2000000
      [ORequest (post_order "item=x")] [] fresh_world
    = Some (Ok (mkResponse 422 [] "invalid order" NoRender), w1)
    /\ caches w1 = caches fresh_world /\ held w1 = [].
Proof. eexists. split; [|split]; vm_compute; reflexivity. Qed.

(** A view that raises: the exception reaches the caller. *)
Example view_error_propagates :
  exists w1,
    wrapped_view function_settings (fun _ _ a => (Raise (ViewError "boom"), a)) 0
      [ORequest (post_order "item=x")] [] fresh_world
    = Some (Raise (ViewError "boom"), w1)
    /\ caches w1 = caches fresh_world /\ held w1 = [].
Proof. eexists. split; [|split]; vm_compute; reflexivity. Qed.

(** C6 at the failing input: a GET for one order, the order number passed
    by keyword. *)
Lemma safe_method_keywords_as_positionals_witness :
  exists w',
    wrapped_view no_user_settings order_detail 0
      [ORequest get_order] [("pk", OVal (PyInt 7))] fresh_world
    = Some ((order_detail ([ORequest get_order] ++ star_keys [("pk", OVal (PyInt 7))])
               [] (app fresh_world)).1, w')
    /\ log w'
       = log fresh_world
         ++ [CallView ([ORequest get_order] ++ star_keys [("pk", OVal (PyInt 7))]) []]
    /\ ([("pk", OVal (PyInt 7))] ≠ [] ->
        CallView ([ORequest get_order] ++ star_keys [("pk", OVal (PyInt 7))]) []
        ≠ CallView [ORequest get_order] [("pk", OVal (PyInt 7))])
    /\ caches w' = caches fresh_world /\ held w' = held fresh_world
    /\ rlocks w' = rlocks fresh_world.
Proof.
  apply (safe_method_keywords_as_positionals no_user_settings order_detail 0
           [ORequest get_order] [("pk", OVal (PyInt 7))] fresh_world None get_order).
  - reflexivity.
  - vm_compute. by left.
Defined.

(** The view called with the original arguments answers for order 7; called
    through the decorator it answers for the order named pk. *)
Example safe_method_wrong_order :
  (order_detail [ORequest get_order] [("pk", OVal (PyInt 7))] 0%nat).1
  = Ok (mkResponse 200 [] "order 7" NoRender)
  /\ exists w',
       wrapped_view no_user_settings order_detail 0
         [ORequest get_order] [("pk", OVal (PyInt 7))] fresh_world
       = Some (Ok (mkResponse 200 [] "order pk" NoRender), w').
Proof. split; [|eexists]; vm_compute; reflexivity. Qed.

(** C7 on a fresh process. *)
Lemma thread_lock_same_name_no_contention_witness :
  exists l1 w1 w1' l2 w2,
    Lock_lock ThreadLock "Idempotency_k" fresh_world = (l1, w1)
    /\ acquire l1 w1 = Some w1'
    /\ Lock_lock ThreadLock "Idempotency_k" w1' = (l2, w2)
    /\ l1 ≠ l2
    /\ l1 ∈ held w2
    /\ is_Some (acquire l2 w2).
Proof.
  apply (thread_lock_same_name_no_contention "Idempotency_k" fresh_world).
  apply fresh_world_rlocks_fresh.
Defined.

(** C8, the claim as stated fails: the anonymous user of Django is a caller
    without an authenticated identity, and contributes the text None, not
    the empty string. *)
Lemma anonymous_user_contributes_None :
  unauthenticated AnonymousUser
  /\ user_id_text AnonymousUser = "None"
  /\ user_id_text AnonymousUser <> ""
  /\ get_cache_key
       (mkRequest "POST" "/orders" ∅ "item=x" (Some AnonymousUser)) (PyStr "abc123")
     = Ok "sha256(abc123/ordersPOSTNone)".
Proof. split; [by right|]. split; [done|]. split; [done|]. vm_compute. reflexivity. Qed.

Lemma get_cache_key_digest_witness :
  get_cache_key (post_order "item=x") (PyStr "abc123")
  = Ok (sha256_hexdigest
          ("abc123" +:+ path_info (post_order "item=x")
           +:+ method (post_order "item=x") +:+ user_id_text (mkUser (Some (PyStr "u1")))))
  /\ (forall request',
        path_info request' = path_info (post_order "item=x") ->
        method request' = method (post_order "item=x") ->
        user request' = user (post_order "item=x") ->
        get_cache_key request' (PyStr "abc123")
        = get_cache_key (post_order "item=x") (PyStr "abc123"))
  /\ (user_id (mkUser (Some (PyStr "u1"))) = None ->
      user_id_text (mkUser (Some (PyStr "u1"))) = "")
  /\ (forall v, user_id (mkUser (Some (PyStr "u1"))) = Some v ->
      user_id_text (mkUser (Some (PyStr "u1"))) = py_str v).
Proof.
  apply (get_cache_key_digest (post_order "item=x") "abc123" (mkUser (Some (PyStr "u1")))).
  reflexivity.
Defined.

(** C9, the claim as stated fails for the in-process storage: a record
    written at time 0 is still found when the configured timeout has
    passed. *)
Lemma memory_record_outlives_timeout :
  exists st',
    Storage_set 0 no_user_settings (MemoryStorage ∅) "k" ("h", order_42) fresh_world
    = Ok (st', fresh_world)
    /\ Storage_get (0 + STORAGE_CACHE_TIMEOUT no_user_settings + 1) st' "k" fresh_world
       = Ok (Some ("h", order_42))
    /\ Storage_get (0 + STORAGE_CACHE_TIMEOUT no_user_settings + 1) st' "k" fresh_world
       <> Ok None.
Proof. eexists. split; [reflexivity|]. split; [by vm_compute|]. by vm_compute. Qed.

Lemma storage_expiry_witness :
  (exists w',
     Storage_set 0 no_user_settings (CacheStorage (STORAGE_CACHE_NAME no_user_settings))
       "k" ("h", order_42) fresh_world
     = Ok (CacheStorage (STORAGE_CACHE_NAME no_user_settings), w')
     /\ (600000000 < 0 + STORAGE_CACHE_TIMEOUT no_user_settings ->
         Storage_get 600000000 (CacheStorage (STORAGE_CACHE_NAME no_user_settings))
           "k" w' = Ok (Some ("h", order_42)))
     /\ (0 + STORAGE_CACHE_TIMEOUT no_user_settings <= 600000000 ->
         Storage_get 600000000 (CacheStorage (STORAGE_CACHE_NAME no_user_settings))
           "k" w' = Ok None))
  /\ (exists st',
        Storage_set 0 no_user_settings (MemoryStorage ∅) "k" ("h", order_42) fresh_world
        = Ok (st', fresh_world)
        /\ Storage_get 600000000 st' "k" fresh_world = Ok (Some ("h", order_42))).
Proof.
  apply (storage_expiry no_user_settings 0 600000000 "k" ("h", order_42)
           fresh_world ∅ ∅).
  - intros v. reflexivity.
  - vm_compute. reflexivity.
Defined.

(** C10 at the failing input: no settings at all, a POST whose header holds
    the empty string. *)
Lemma falsy_key_default_function_raises_witness :
  wrapped_view no_user_settings create_order 0 [ORequest post_empty_key] []
    fresh_world
  = Some (Raise TypeError, fresh_world).
Proof.
  apply (falsy_key_default_function_raises no_user_settings create_order 0
           [ORequest post_empty_key] [] fresh_world None post_empty_key (PyStr "")).
  - reflexivity.
  - vm_compute. intros Hin. repeat (apply elem_of_cons in Hin as [Hin|Hin]; [discriminate|]).
    by apply elem_of_nil in Hin.
  - vm_compute. reflexivity.
  - reflexivity.
  - reflexivity.
Defined.


End Examples.

(** * The settings object *)

Section SettingsObject.
Variable importable : gset string.
Implicit Types (o : Settings) (u : gmap string SettingVal).
Implicit Types (django : Django) (attr : string).

Lemma Settings_init_coherent : coherent Settings_init.
Proof. unfold coherent. simpl. by rewrite dom_empty_L. Qed.

(** A read keeps the object coherent. *)
Lemma Settings_attr_coherent django attr o r o' :
  coherent o ->
  Settings_attr importable django attr o = (r, o') ->
  coherent o'.
Proof.
  unfold coherent, Settings_attr. intros Hdom.
  destruct (attributes o !! attr) as [value|]; [by intros [= <- <-]|].
  unfold Settings_getattr, Settings_user_settings.
  destruct (DEFAULTS !! attr) as [d|]; [|by intros [= <- <-]].
  destruct (_user_settings o) as [ref|];
    match goal with
    | |- context [if ?b then import_setting importable ?v else Ok ?v] =>
        destruct (if b then import_setting importable v else Ok v)
    end; intros [= <- <-]; simpl; try done; by rewrite dom_insert_L, Hdom.
Qed.

Lemma Settings_reads_coherent reads o rs o' :
  coherent o ->
  Settings_reads importable reads o = (rs, o') ->
  coherent o'.
Proof.
  revert o rs. induction reads as [|[django attr] rest IH]; intros o rs Hco.
  - by intros [= <- <-].
  - cbn [Settings_reads].
    destruct (Settings_attr importable django attr o) as [r o1] eqn:Hr.
    destruct (Settings_reads importable rest o1) as [rs1 o2] eqn:Hrs.
    intros [= <- <-]. apply (IH o1 rs1); [|done].
    by apply (Settings_attr_coherent django attr o r).
Qed.

(** A read of an object that holds the reference [ref], at a moment when the
    dict behind it holds [u]. *)
Lemma Settings_attr_held django attr o ref u r o' :
  _user_settings o = Some ref ->
  contents django ref = u ->
  resolved_from importable u o ->
  Settings_attr importable django attr o = (r, o') ->
  r = resolve importable u attr
  /\ resolved_from importable u o'
  /\ _user_settings o' = Some ref.
Proof.
  intros Hu Hcont Hres. unfold Settings_attr.
  destruct (attributes o !! attr) as [value|] eqn:Hattr.
  { intros [= <- <-]. by rewrite (Hres _ _ Hattr). }
  unfold Settings_getattr, resolve, Settings_user_settings. rewrite Hu, Hcont.
  destruct (DEFAULTS !! attr) as [d|] eqn:Hd; [|by intros [= <- <-]].
  set (value := default d (u !! attr)).
  destruct (if bool_decide (attr ∈ IMPORT_STRINGS)
            then import_setting importable value else Ok value) as [v|e] eqn:Hv;
    intros [= <- <-]; [|done].
  split; [done|]. split; [|done].
  intros attr' value' Hl. simpl in Hl.
  destruct (decide (attr = attr')) as [<-|Hne].
  - rewrite lookup_insert_eq in Hl. injection Hl as <-. unfold resolve. by rewrite Hd.
  - rewrite lookup_insert_ne in Hl by done. by apply Hres.
Qed.

(** The first read of a new object takes the reference. *)
Lemma Settings_attr_first django attr u r o' :
  is_Some (DEFAULTS !! attr) ->
  contents django (getattr_settings django) = u ->
  Settings_attr importable django attr Settings_init = (r, o') ->
  r = resolve importable u attr
  /\ resolved_from importable u o'
  /\ _user_settings o' = Some (getattr_settings django).
Proof.
  intros [d Hd] Hcont. unfold Settings_attr. cbn [attributes Settings_init].
  rewrite lookup_empty.
  unfold Settings_getattr, resolve, Settings_user_settings. simpl. rewrite Hd, Hcont.
  set (value := default d (u !! attr)).
  destruct (if bool_decide (attr ∈ IMPORT_STRINGS)
            then import_setting importable value else Ok value) as [v|e] eqn:Hv;
    intros [= <- <-].
  - split; [done|]. split; [|done]. intros attr' value' Hl.
    cbn [attributes Settings_init] in Hl.
    destruct (decide (attr = attr')) as [<-|Hne].
    + rewrite lookup_insert_eq in Hl. injection Hl as <-. unfold resolve. by rewrite Hd.
    + by rewrite lookup_insert_ne in Hl.
  - split; [done|]. split; [|done]. by intros attr' value' Hl.
Qed.

Lemma Settings_reads_held reads o ref u rs o' :
  _user_settings o = Some ref ->
  (forall da, da ∈ reads -> contents da.1 ref = u) ->
  resolved_from importable u o ->
  Settings_reads importable reads o = (rs, o') ->
  rs = map (fun da => resolve importable u da.2) reads
  /\ _user_settings o' = Some ref.
Proof.
  revert o rs. induction reads as [|[django attr] rest IH]; intros o rs Hu Hcont Hres.
  - by intros [= <- <-].
  - cbn [Settings_reads].
    destruct (Settings_attr importable django attr o) as [r o1] eqn:Hr.
    destruct (Settings_reads importable rest o1) as [rs1 o2] eqn:Hrs.
    intros [= <- <-].
    destruct (Settings_attr_held django attr o ref u r o1 Hu) as (-> & Hres1 & Hu1);
      [by apply (Hcont (django, attr)); left|done|done|].
    destruct (IH o1 rs1 Hu1) as (-> & Hu2); [|done|done|by split].
    intros da Hda. apply Hcont. by right.
Qed.

(** X1: on a new Settings object, the first read of a known setting takes a
    reference to the dict that Django's IDEMPOTENCY_KEY_SETTINGS is bound to
    at that moment (to an empty dict of its own when the setting is not
    defined).  As long as that dict is not changed in place, every read from
    then on, of any setting and whatever the setting has been bound to
    meanwhile, gives what the contents of that dict resolve to (the user's
    value if present, else the default, imported only for the names in
    IMPORT_STRINGS). *)
Theorem settings_reads_one_snapshot django0 attr0 u reads rs o' :
  is_Some (DEFAULTS !! attr0) ->
  (forall da, da ∈ (django0, attr0) :: reads ->
     contents da.1 (getattr_settings django0) = u) ->
  Settings_reads importable ((django0, attr0) :: reads) Settings_init = (rs, o') ->
  rs = map (fun da => resolve importable u da.2) ((django0, attr0) :: reads)
  /\ _user_settings o' = Some (getattr_settings django0).
Proof.
  intros Hknown Hcont. cbn [Settings_reads].
  destruct (Settings_attr importable django0 attr0 Settings_init) as [r o1] eqn:Hr.
  destruct (Settings_reads importable reads o1) as [rs1 o2] eqn:Hrs.
  intros [= <- <-].
  destruct (Settings_attr_first django0 attr0 u r o1 Hknown) as (-> & Hres1 & Hu1);
    [by apply (Hcont (django0, attr0)); left|done|].
  destruct (Settings_reads_held reads o1 _ u rs1 o2 Hu1) as (-> & Hu2);
    [|done|done|by split].
  intros da Hda. apply Hcont. by right.
Qed.

Lemma coherent_reload o : coherent o -> Settings_reload o = Ok Settings_init.
Proof.
  unfold coherent. intros Hdom. unfold Settings_reload. rewrite Hdom.
  rewrite bool_decide_true by done. f_equal. unfold Settings_init. f_equal.
  apply map_eq. intros attr. rewrite lookup_empty.
  apply map_lookup_filter_None. right. intros value Hl Hn. simpl in Hn.
  apply Hn. apply elem_of_dom. by exists value.
Qed.

(** X2: whatever has been read from a Settings object, reload() brings it
    back to the state of a new object (no cached setting, no user settings
    held), so the next read takes Django's settings anew; reload_settings
    does this when the changed setting is IDEMPOTENCY_KEY_SETTINGS and
    leaves the object as it is for every other name. *)
Theorem settings_reload_forgets reads rs o :
  Settings_reads importable reads Settings_init = (rs, o) ->
  Settings_reload o = Ok Settings_init
  /\ reload_settings SETTINGS_NAME o = Ok Settings_init
  /\ (forall setting, setting ≠ SETTINGS_NAME -> reload_settings setting o = Ok o).
Proof.
  intros Hreads.
  pose proof (Settings_reads_coherent _ _ _ _ Settings_init_coherent Hreads) as Hco.
  split; [by apply coherent_reload|]. split.
  - unfold reload_settings. rewrite String.eqb_refl. by apply coherent_reload.
  - intros setting Hne. unfold reload_settings.
    by apply String.eqb_neq in Hne as ->.
Qed.

End SettingsObject.

(** * More on the decorator, the storages and the locks *)

Section MoreProperties.
Context `{Runtime}.
Implicit Types (s : UserSettings) (w : World) (view : View) (now : Z).
Implicit Types (args : list PyObj) (kwargs : list (string * PyObj)).
Implicit Types (request : Request) (l : LockObj) (j : Job).

(** ** What a call leaves behind *)

(** The locked section does not touch the locks; either it calls the view
    once, or it changes nothing at all. *)
Lemma locked_section_frame s view now args kwargs view_set request key h w r w' :
  locked_section s view now args kwargs view_set request key h w = (r, w') ->
  held w' = held w
  /\ (log w' = log w ++ [CallView args kwargs] \/ w' = w).
Proof.
  unfold locked_section.
  destruct (lookup s now key h w) as [r0|storage]; [intros [= <- <-]; auto|].
  destruct (invoke view args kwargs view_set request w) as [x w1] eqn:Hinv.
  destruct (invoke_frame _ _ _ _ _ _ _ _ Hinv) as (Hl1 & _ & Hh1 & _).
  destruct x as [r0|response]; [intros [= <- <-]; auto|].
  intros Hstore. destruct (store_frame _ _ _ _ _ _ _ _ _ Hstore) as (Hl3 & Hh3 & _).
  split; [congruence|]. left. congruence.
Qed.

(** X3: every call of wrapped_view that returns, with a response or with an
    exception, leaves the held locks exactly as it found them, and calls the
    view at most once; a call that does not call the view changes neither
    the caches nor the state of the view. *)
Theorem call_footprint s view now args kwargs w r w' :
  wrapped_view s view now args kwargs w = Some (r, w') ->
  held w' = held w
  /\ ((view_calls (log w') = view_calls (log w)
       /\ caches w' = caches w /\ app w' = app w)
      \/ view_calls (log w') = S (view_calls (log w))).
Proof.
  unfold wrapped_view.
  destruct (view_set_and_request args) as [[view_set request]|e];
    [|intros [= <- <-]; auto].
  case_bool_decide as Hsafe.
  { unfold call_view. destruct (view _ _ _) as [r0 a]. intros [= <- <-].
    split; [done|]. right. simpl. rewrite view_calls_app.
    unfold view_calls. simpl. lia. }
  destruct (negb (truthy (key_from_header s request))); [intros [= <- <-]; auto|].
  destruct (GET_CACHE_KEY s request (key_from_header s request)) as [key|e];
    [|intros [= <- <-]; auto].
  destruct (LOCK s) as [mutex|e]; [|intros [= <- <-]; auto].
  pose proof (held_Lock_lock mutex ("Idempotency_" +:+ key) w) as Hh1.
  pose proof (caches_Lock_lock mutex ("Idempotency_" +:+ key) w) as Hc1.
  assert (app (Lock_lock mutex ("Idempotency_" +:+ key) w).2 = app w
          /\ log (Lock_lock mutex ("Idempotency_" +:+ key) w).2 = log w) as [Ha1 Hl1]
    by (by destruct mutex).
  destruct (Lock_lock mutex ("Idempotency_" +:+ key) w) as [l w1]. simpl in *.
  unfold acquire. case_bool_decide as Hfree; [done|].
  set (w2 := record (Acquire l) (set_held (l :: held w1) w1)).
  destruct (locked_section s view now args kwargs view_set request key
              (sha256_hexdigest (body request)) w2) as [r0 w3] eqn:Hsec.
  intros [= <- <-].
  destruct (locked_section_frame _ _ _ _ _ _ _ _ _ _ _ _ Hsec) as [Hh3 Hw3].
  split.
  - simpl. rewrite Hh3. unfold w2. simpl. rewrite <- Hh1. by apply filter_released.
  - destruct Hw3 as [Hlog| ->].
    + right. simpl. rewrite Hlog. unfold w2. simpl. rewrite Hl1, !view_calls_app.
      unfold view_calls. simpl. lia.
    + left. unfold w2. simpl. rewrite Hl1, !view_calls_app, Hc1, Ha1.
      unfold view_calls. simpl. split; [lia|done].
Qed.

(** A call whose lookup ends the locked section. *)
Lemma wrapped_view_lookup_ends s view now args kwargs w j mutex r :
  prepare s args kwargs = Some j ->
  LOCK s = Ok mutex ->
  lock_of mutex (job_key j) w ∉ held w ->
  lookup s now (job_key j) (job_body_hash j) w = inl r ->
  exists w',
    wrapped_view s view now args kwargs w = Some (r, w')
    /\ caches w' = caches w /\ app w' = app w /\ held w' = held w
    /\ view_calls (log w') = view_calls (log w).
Proof.
  intros Hp Hlock Hfree Hhit.
  rewrite (wrapped_view_locked _ _ _ _ _ _ _ _ Hp Hlock Hfree).
  unfold locked_section.
  rewrite (lookup_caches s now _ _ _ w (caches_entered mutex (job_key j) w)), Hhit.
  eexists. split; [reflexivity|].
  destruct (release_frame (lock_of mutex (job_key j) w) (entered mutex (job_key j) w))
    as (Hc & Ha & _ & Hl & _).
  rewrite Hc, Ha, Hl, caches_entered, app_entered, log_entered.
  repeat split; [by apply held_released|].
  rewrite !view_calls_app. unfold view_calls. simpl. lia.
Qed.

(** X4: when the lookup finds a record that has not expired, whatever the
    body of the request, the call ends with the stored response (same hash)
    or with the result of BAD_RESPONSE_FUNCTION (another hash); the view is
    not called and the caches are unchanged, so a record is never
    overwritten while it lasts. *)
Theorem live_record_is_kept s view now args kwargs w j mutex (st : Storage) h' r' :
  prepare s args kwargs = Some j ->
  LOCK s = Ok mutex ->
  lock_of mutex (job_key j) w ∉ held w ->
  STORAGE s w = Ok st ->
  Storage_get now st (job_key j) w = Ok (Some (h', r')) ->
  exists w',
    wrapped_view s view now args kwargs w
    = Some (if String.eqb (job_body_hash j) h' then Ok r'
            else BAD_RESPONSE s conflict_message, w')
    /\ caches w' = caches w /\ app w' = app w /\ held w' = held w
    /\ view_calls (log w') = view_calls (log w)
    /\ Storage_get now st (job_key j) w' = Ok (Some (h', r')).
Proof.
  intros Hp Hlock Hfree Hst Hget.
  destruct (wrapped_view_lookup_ends s view now args kwargs w j mutex
              (if String.eqb (job_body_hash j) h' then Ok r'
               else BAD_RESPONSE s conflict_message) Hp Hlock Hfree)
    as (w' & Hcall & Hc & Ha & Hh & Hn).
  { unfold lookup. rewrite Hst, Hget. by destruct (String.eqb (job_body_hash j) h'). }
  exists w'. repeat split; try done.
  by rewrite (Storage_get_caches now st (job_key j) w' w Hc).
Qed.

(** X5: when the cache named by STORAGE_CACHE_NAME is not configured, a call
    that reaches the storage raises InvalidCacheBackendError; the view is
    not called, nothing is written, and the lock is released. *)
Theorem missing_cache_raises s view now args kwargs w j mutex :
  prepare s args kwargs = Some j ->
  LOCK s = Ok mutex ->
  lock_of mutex (job_key j) w ∉ held w ->
  call_setting (STORAGE_CLASS s) = Ok CacheKeyStorage ->
  caches w !! STORAGE_CACHE_NAME s = None ->
  exists w',
    wrapped_view s view now args kwargs w = Some (Raise InvalidCacheBackendError, w')
    /\ caches w' = caches w /\ app w' = app w /\ held w' = held w
    /\ view_calls (log w') = view_calls (log w).
Proof.
  intros Hp Hlock Hfree Hs Hc.
  apply (wrapped_view_lookup_ends s view now args kwargs w j mutex); try done.
  unfold lookup, STORAGE, Storage_init, caches_getitem. by rewrite Hs, Hc.
Qed.

(** ** Line 14: the shape of the arguments *)

(** X6: wrapped_view takes the request alone or a view set and the request.
    Called with a request followed by one more positional value it takes the
    request for the view set and the value for the request, and raises
    AttributeError; with two or more further values, or with no argument,
    the unpacking raises ValueError.  In each case the view is not called
    and nothing changes. *)
Theorem positional_values_raise s view now request v (vals : list PyVal) kwargs w :
  wrapped_view s view now (ORequest request :: OVal v :: map OVal vals) kwargs w
  = Some (Raise (match vals with [] => AttributeError | _ => ValueError end), w)
  /\ wrapped_view s view now [] kwargs w = Some (Raise ValueError, w).
Proof. split; [|done]. by destruct vals. Qed.

(** ** utils.get_cache_key in the decorator *)

(** X7: with utils.get_cache_key as the key function, a request outside the
    safe methods that carries a key but has no user attribute (no
    authentication middleware) raises AttributeError on line 29: the view is
    not called, no lock is taken, nothing changes. *)
Theorem request_without_user_raises s view now args kwargs w view_set request k :
  view_set_and_request args = Ok (view_set, request) ->
  method request ∉ SAFE_METHODS s ->
  META request !! HEADER s = Some (PyStr k) ->
  k ≠ "" ->
  user_GET_CACHE_KEY_FUNCTION s = Some (Obj utils_get_cache_key) ->
  user request = None ->
  wrapped_view s view now args kwargs w = Some (Raise AttributeError, w).
Proof.
  intros Hargs Hsafe Hmeta Hk Hf Hu. unfold wrapped_view.
  rewrite Hargs, bool_decide_false by done.
  unfold key_from_header. rewrite Hmeta. simpl.
  apply String.eqb_neq in Hk as ->. simpl.
  unfold GET_CACHE_KEY, GET_CACHE_KEY_FUNCTION. rewrite Hf. simpl.
  unfold get_cache_key, getattr_user. by rewrite Hu.
Qed.

(** X8: get_cache_key feeds its four parts to the digest one after the other
    with nothing between them, so that only their concatenation counts: two
    requests whose key, path, method and user id text concatenate to the
    same text get the same cache key, even when the parts differ. *)
Theorem get_cache_key_concatenation request1 request2 k1 k2 u1 u2 :
  user request1 = Some u1 ->
  user request2 = Some u2 ->
  k1 +:+ path_info request1 +:+ method request1 +:+ user_id_text u1
  = k2 +:+ path_info request2 +:+ method request2 +:+ user_id_text u2 ->
  get_cache_key request1 (PyStr k1) = get_cache_key request2 (PyStr k2).
Proof.
  intros Hu1 Hu2 Heq.
  unfold get_cache_key, getattr_user, sha256_update, sha256_new.
  rewrite Hu1, Hu2. cbn [bind encode]. rewrite !append_assoc.
  change ("" +:+ ?x) with x. by rewrite Heq.
Qed.

(** ** storages.py *)

(** X10: a second set under the same key replaces the record and starts the
    timeout anew: with either storage as the decorator creates it, after two
    writes a lookup finds the second value, for the cache storage as long as
    the timeout counted from the second write has not passed (however long
    ago the first write was). *)
Theorem storage_set_twice s c now1 now2 now' (st st1 st2 : Storage) key v1 v2 w w1 w2 :
  (forall v, pickle_loads (pickle_dumps v) = Ok v) ->
  Storage_init s c w = Ok st ->
  Storage_set now1 s st key v1 w = Ok (st1, w1) ->
  Storage_set now2 s st1 key v2 w1 = Ok (st2, w2) ->
  now' < now2 + STORAGE_CACHE_TIMEOUT s ->
  Storage_get now' st2 key w2 = Ok (Some v2).
Proof.
  intros Hpickle Hinit Hset1 Hset2 Hlt. destruct c; simpl in Hinit.
  - injection Hinit as <-. simpl in Hset1. injection Hset1 as <- <-.
    simpl in Hset2. injection Hset2 as <- <-. simpl. by rewrite lookup_insert_eq.
  - unfold caches_getitem in Hinit.
    destruct (caches w !! STORAGE_CACHE_NAME s) as [c0|] eqn:Hc; [|done].
    simpl in Hinit. injection Hinit as <-.
    unfold Storage_set, caches_getitem in Hset1. rewrite Hc in Hset1.
    simpl in Hset1. injection Hset1 as <- <-.
    unfold Storage_set, caches_getitem in Hset2. simpl in Hset2.
    rewrite lookup_insert_eq in Hset2. simpl in Hset2. injection Hset2 as <- <-.
    unfold Storage_get, caches_getitem. simpl. rewrite lookup_insert_eq. simpl.
    unfold cache_get, cache_set. rewrite lookup_insert_eq. simpl.
    rewrite bool_decide_true by done. by rewrite Hpickle.
Qed.

(** ** locks.RedisLock *)

(** X11: RedisLock.lock gives the lock of the name it is passed and creates
    nothing: while the lock of one name is held, an acquisition with the
    same name waits, an acquisition with another name that is free
    succeeds, and releasing gives the held locks back as they were. *)
Theorem redis_lock_by_name name1 name2 w w1 :
  acquire (Lock_lock RedisLock name1 w).1 (Lock_lock RedisLock name1 w).2 = Some w1 ->
  (Lock_lock RedisLock name2 w1).2 = w1
  /\ (name2 = name1 ->
      acquire (Lock_lock RedisLock name2 w1).1 w1 = None)
  /\ (name2 ≠ name1 -> RedisLockObj name2 ∉ held w ->
      is_Some (acquire (Lock_lock RedisLock name2 w1).1 w1))
  /\ held (release (Lock_lock RedisLock name1 w).1 w1) = held w.
Proof.
  simpl. unfold acquire. case_bool_decide as Hfree; [done|]. intros [= <-].
  split; [done|]. split; [|split].
  - intros ->. simpl. rewrite bool_decide_true; [done|by left].
  - intros Hne Hfree2. simpl. rewrite bool_decide_false; [done|].
    apply not_elem_of_cons. split; [congruence|done].
  - simpl. by apply filter_released.
Qed.

(** ** The record after its timeout *)

Lemma cache_lookup_expired s now now' key h value w (c : gmap string CacheEntry) :
  call_setting (STORAGE_CLASS s) = Ok CacheKeyStorage ->
  caches w !! STORAGE_CACHE_NAME s
  = Some (cache_set now c key value (STORAGE_CACHE_TIMEOUT s)) ->
  now + STORAGE_CACHE_TIMEOUT s <= now' ->
  lookup s now' key h w = inr (CacheStorage (STORAGE_CACHE_NAME s)).
Proof.
  intros Hs Hc Hle.
  unfold lookup, STORAGE, Storage_init, caches_getitem. rewrite Hs. simpl.
  rewrite Hc. simpl. unfold caches_getitem. rewrite Hc. simpl.
  unfold cache_get, cache_set. rewrite lookup_insert_eq. simpl.
  rewrite bool_decide_false; [done|lia].
Qed.

(** X12: with the cache storage and a pickle that round-trips, a record is
    replayed only while its timeout lasts: after a first call whose view
    answered with a success, stored at time later (the call returns the
    rendered response when the lock is an RLock or the lease of the Redis
    lock has not run out), a call with the same arguments at or after
    later + STORAGE_CACHE_TIMEOUT is a miss and calls the view again, so the
    view has run twice. *)
Theorem expired_record_runs_view_again s view now later now' later' args kwargs w j
    mutex (st : Storage) response :
  (forall v, pickle_loads (pickle_dumps v) = Ok v) ->
  prepare s args kwargs = Some j ->
  LOCK s = Ok mutex ->
  (mutex = RedisLock -> whole_milliseconds (LOCK_TTL s)) ->
  call_setting (STORAGE_CLASS s) = Ok CacheKeyStorage ->
  rlocks_fresh w ->
  lock_of mutex (job_key j) w ∉ held w ->
  lookup s now (job_key j) (job_body_hash j) w = inr st ->
  view_outcome view args kwargs (job_view_set j) (job_request j) (app w) = Ok response ->
  is_success (status_code response) = true ->
  later + STORAGE_CACHE_TIMEOUT s <= now' ->
  exists r1 w1 r2 w2,
    timed_wrapped_view s view now later args kwargs w = Some (r1, w1)
    /\ (mutex = ThreadLock \/ later < now + LOCK_TTL s -> r1 = Ok (rendered response))
    /\ timed_wrapped_view s view now' later' args kwargs w1 = Some (r2, w2)
    /\ view_calls (log w2) = S (S (view_calls (log w))).
Proof.
  intros _ Hp Hlock _ Hs Hfresh Hfree Hmiss Hout Hok Hle.
  destruct (timed_first_execution s view now later args kwargs w j mutex st response)
    as (w1 & c & Hcall1 & Hc1 & Hh1 & Hf1 & Hn1); try done.
  assert (lock_of mutex (job_key j) w1 ∉ held w1) as Hfree1.
  { by apply (next_lock_free mutex (job_key j) w w1). }
  destruct (timed_miss_call s view now' later' args kwargs w1 j mutex _ Hp Hlock Hfree1
              (cache_lookup_expired s later now' _ _ _ w1 c Hs Hc1 Hle))
    as (r2 & w2 & Hcall2 & Hn2 & _).
  eexists _, w1, r2, w2. split; [exact Hcall1|].
  split; [intros Hin; by rewrite (owned_in_time s mutex _ w now later Hin)|].
  split; [done|]. by rewrite Hn2, Hn1.
Qed.


End MoreProperties.

(** * The further properties on the order service *)

Section MoreExamples.
#[local] Existing Instance order_runtime.

(** X1 on four reads: the header is set in the dict the object finds at its
    first read; afterwards the setting is bound to other dicts, then removed,
    while the first dict stays as it was. *)
Lemma settings_reads_one_snapshot_witness :
  exists rs o',
    Settings_reads {["simple_idempotency.storages.CacheKeyStorage"]}
      [(django_with header_dict, "HEADER");
       (mkDjango (<[2%nat := ∅]> {[1%nat := header_dict]}) (Some 2%nat), "HEADER");
       (mkDjango {[1%nat := header_dict]} None, "STORAGE_CLASS");
       (mkDjango (<[3%nat := {["BAD_RESPONSE_STATUS_CODE" := SInt 409]}]>
                    {[1%nat := header_dict]}) (Some 3%nat),
        "BAD_RESPONSE_STATUS_CODE")]
      Settings_init = (rs, o')
    /\ rs = [Ok (SStr "HTTP_X_KEY"); Ok (SStr "HTTP_X_KEY");
             Ok (SObject "simple_idempotency.storages.CacheKeyStorage");
             Ok (SInt 400)]
    /\ _user_settings o' = Some (DjangoDict 1).
Proof.
  eexists _, _. split; [vm_compute; reflexivity|].
  refine (settings_reads_one_snapshot
            {["simple_idempotency.storages.CacheKeyStorage"]}
            (django_with header_dict) "HEADER" header_dict
            [(mkDjango (<[2%nat := ∅]> {[1%nat := header_dict]}) (Some 2%nat), "HEADER");
             (mkDjango {[1%nat := header_dict]} None, "STORAGE_CLASS");
             (mkDjango (<[3%nat := {["BAD_RESPONSE_STATUS_CODE" := SInt 409]}]>
                          {[1%nat := header_dict]}) (Some 3%nat),
              "BAD_RESPONSE_STATUS_CODE")] _ _ _ _ _).
  - eexists. vm_compute. reflexivity.
  - intros da Hda.
    repeat (apply elem_of_cons in Hda as [->|Hda]; [vm_compute; reflexivity|]).
    by apply elem_of_nil in Hda.
  - vm_compute. reflexivity.
Defined.

(** The dict changed in place: a setting that was read before keeps its
    value, a setting read for the first time comes from the dict as it is
    now. *)
Example settings_in_place_change_is_seen :
  (Settings_reads ∅
     [(django_with header_dict, "HEADER");
      (django_with (<["BAD_RESPONSE_STATUS_CODE" := SInt 409]>
                      {["HEADER" := SStr "HTTP_OTHER"]}), "HEADER");
      (django_with (<["BAD_RESPONSE_STATUS_CODE" := SInt 409]>
                      {["HEADER" := SStr "HTTP_OTHER"]}),
       "BAD_RESPONSE_STATUS_CODE")]
     Settings_init).1
  = [Ok (SStr "HTTP_X_KEY"); Ok (SStr "HTTP_X_KEY"); Ok (SInt 409)].
Proof. vm_compute. reflexivity. Qed.

Lemma settings_reload_forgets_witness :
  exists rs o,
    Settings_reads {["simple_idempotency.storages.CacheKeyStorage"]}
      [(django_with header_dict, "HEADER"); (mkDjango ∅ None, "STORAGE_CLASS")]
      Settings_init = (rs, o)
    /\ Settings_reload o = Ok Settings_init
    /\ reload_settings SETTINGS_NAME o = Ok Settings_init
    /\ (forall setting, setting ≠ SETTINGS_NAME -> reload_settings setting o = Ok o).
Proof.
  eexists _, _. split; [vm_compute; reflexivity|].
  eapply (settings_reload_forgets {["simple_idempotency.storages.CacheKeyStorage"]}
           [(django_with header_dict, "HEADER"); (mkDjango ∅ None, "STORAGE_CLASS")]).
  vm_compute. reflexivity.
Defined.

Lemma call_footprint_witness :
  exists r w',
    wrapped_view function_settings create_order 0
      [ORequest (post_order "item=x")] [] fresh_world = Some (r, w')
    /\ held w' = held fresh_world
    /\ ((view_calls (log w') = view_calls (log fresh_world)
         /\ caches w' = caches fresh_world /\ app w' = app fresh_world)
        \/ view_calls (log w') = S (view_calls (log fresh_world))).
Proof.
  eexists _, _. split; [vm_compute; reflexivity|].
  eapply (call_footprint function_settings create_order 0
           [ORequest (post_order "item=x")] []).
  vm_compute. reflexivity.
Defined.

Lemma live_record_is_kept_witness :
  exists w',
    wrapped_view function_settings create_order 5
      [ORequest (post_order "item=x")] [] world_with_record
    = Some (if String.eqb (job_body_hash (order_job "item=x")) "sha256(item=x)"
            then Ok order_42
            else BAD_RESPONSE function_settings conflict_message, w')
    /\ caches w' = caches world_with_record /\ app w' = app world_with_record
    /\ held w' = held world_with_record
    /\ view_calls (log w') = view_calls (log world_with_record)
    /\ Storage_get 5 (CacheStorage "default") (job_key (order_job "item=x")) w'
       = Ok (Some ("sha256(item=x)", order_42)).
Proof.
  apply (live_record_is_kept function_settings create_order 5
           [ORequest (post_order "item=x")] [] world_with_record
           (order_job "item=x") ThreadLock (CacheStorage "default")
           "sha256(item=x)" order_42).
  - vm_compute. reflexivity.
  - reflexivity.
  - apply not_elem_of_nil.
  - vm_compute. reflexivity.
  - vm_compute. reflexivity.
Defined.

Lemma missing_cache_raises_witness :
  exists w',
    wrapped_view function_settings create_order 0
      [ORequest (post_order "item=x")] [] (@mkWorld order_runtime ∅ [] 0%nat 0%nat [])
    = Some (Raise InvalidCacheBackendError, w')
    /\ caches w' = ∅ /\ app w' = 0%nat /\ held w' = []
    /\ view_calls (log w') = 0%nat.
Proof.
  apply (missing_cache_raises function_settings create_order 0
           [ORequest (post_order "item=x")] [] (@mkWorld order_runtime ∅ [] 0%nat 0%nat [])
           (order_job "item=x") ThreadLock).
  - vm_compute. reflexivity.
  - reflexivity.
  - apply not_elem_of_nil.
  - reflexivity.
  - reflexivity.
Defined.

Lemma request_without_user_raises_witness :
  wrapped_view function_settings create_order 0
    [ORequest (mkRequest "POST" "/orders" {["HTTP_IDEMPOTENCY_KEY" := PyStr "abc123"]}
                 "item=x" None)] [] fresh_world
  = Some (Raise AttributeError, fresh_world).
Proof.
  apply (request_without_user_raises function_settings create_order 0
           [ORequest (mkRequest "POST" "/orders"
                        {["HTTP_IDEMPOTENCY_KEY" := PyStr "abc123"]} "item=x" None)]
           [] fresh_world None
           (mkRequest "POST" "/orders" {["HTTP_IDEMPOTENCY_KEY" := PyStr "abc123"]}
              "item=x" None) "abc123").
  - reflexivity.
  - vm_compute. intros Hin. repeat (apply elem_of_cons in Hin as [Hin|Hin]; [discriminate|]).
    by apply elem_of_nil in Hin.
  - vm_compute. reflexivity.
  - discriminate.
  - reflexivity.
  - reflexivity.
Defined.

(** X8 on two requests: key [k] on path [/x/o] and key [k/x] on path [/o]. *)
Lemma get_cache_key_concatenation_witness :
  get_cache_key
    (mkRequest "POST" "/x/o" ∅ "" (Some (mkUser (Some (PyStr "u1"))))) (PyStr "k")
  = get_cache_key
      (mkRequest "POST" "/o" ∅ "" (Some (mkUser (Some (PyStr "u1"))))) (PyStr "k/x").
Proof.
  apply (get_cache_key_concatenation
           (mkRequest "POST" "/x/o" ∅ "" (Some (mkUser (Some (PyStr "u1")))))
           (mkRequest "POST" "/o" ∅ "" (Some (mkUser (Some (PyStr "u1")))))
           "k" "k/x" (mkUser (Some (PyStr "u1"))) (mkUser (Some (PyStr "u1"))));
    reflexivity.
Defined.

(** X10: written at 0 and again at 1000, read when the first timeout has
    passed and the second has not. *)
Lemma storage_set_twice_witness :
  exists st1 w1 st2 w2,
    Storage_set 0 no_user_settings (CacheStorage "default") "k" ("h", order_42)
      fresh_world = Ok (st1, w1)
    /\ Storage_set 1000 no_user_settings st1 "k"
         ("h2", mkResponse 201 [] "order 43" NoRender) w1 = Ok (st2, w2)
    /\ Storage_get 600000500 st2 "k" w2
       = Ok (Some ("h2", mkResponse 201 [] "order 43" NoRender)).
Proof.
  eexists _, _, _, _. split; [vm_compute; reflexivity|].
  split; [vm_compute; reflexivity|].
  eapply (storage_set_twice no_user_settings CacheKeyStorage 0 1000 600000500
           (CacheStorage "default") _ _ "k" ("h", order_42)
           ("h2", mkResponse 201 [] "order 43" NoRender) fresh_world).
  - intros v. reflexivity.
  - vm_compute. reflexivity.
  - vm_compute. reflexivity.
  - vm_compute. reflexivity.
  - reflexivity.
Defined.

Lemma redis_lock_by_name_witness :
  exists w1,
    acquire (Lock_lock RedisLock "Idempotency_a" fresh_world).1
      (Lock_lock RedisLock "Idempotency_a" fresh_world).2 = Some w1
    /\ (Lock_lock RedisLock "Idempotency_b" w1).2 = w1
    /\ ("Idempotency_b" = "Idempotency_a" ->
        acquire (Lock_lock RedisLock "Idempotency_b" w1).1 w1 = None)
    /\ ("Idempotency_b" ≠ "Idempotency_a" ->
        RedisLockObj "Idempotency_b" ∉ held fresh_world ->
        is_Some (acquire (Lock_lock RedisLock "Idempotency_b" w1).1 w1))
    /\ held (release (Lock_lock RedisLock "Idempotency_a" fresh_world).1 w1)
       = held fresh_world.
Proof.
  eexists. split; [vm_compute; reflexivity|].
  apply (redis_lock_by_name "Idempotency_a" "Idempotency_b" fresh_world).
  vm_compute. reflexivity.
Defined.

(** X12 under the Redis lock: stored after two seconds, asked again ten
    minutes after that. *)
Lemma expired_record_runs_view_again_witness :
  exists r1 w1 r2 w2,
    timed_wrapped_view redis_settings create_order 0 2000000
      [ORequest (post_order "item=x")] [] fresh_world = Some (r1, w1)
    /\ (RedisLock = ThreadLock \/ 2000000 < 0 + LOCK_TTL redis_settings ->
        r1 = Ok (rendered order_42))
    /\ timed_wrapped_view redis_settings create_order 602000000 603000000
         [ORequest (post_order "item=x")] [] w1 = Some (r2, w2)
    /\ view_calls (log w2) = S (S (view_calls (log fresh_world))).
Proof.
  apply (expired_record_runs_view_again redis_settings create_order 0 2000000
           602000000 603000000
           [ORequest (post_order "item=x")] [] fresh_world (order_job "item=x")
           RedisLock (CacheStorage "default") order_42).
  - intros v. reflexivity.
  - vm_compute. reflexivity.
  - reflexivity.
  - intros _. split; [reflexivity|]. by exists 300000.
  - reflexivity.
  - apply fresh_world_rlocks_fresh.
  - apply not_elem_of_nil.
  - vm_compute. reflexivity.
  - vm_compute. reflexivity.
  - reflexivity.
  - vm_compute. discriminate.
Defined.

(** X13 under the Redis lock: the view answers after two seconds, the same
    request comes again three seconds later. *)
Lemma cache_storage_replays_witness :
  exists r1 w1 w2,
    timed_wrapped_view redis_settings create_order 0 2000000
      [ORequest (post_order "item=x")] [] fresh_world = Some (r1, w1)
    /\ (RedisLock = ThreadLock \/ 2000000 < 0 + LOCK_TTL redis_settings ->
        r1 = Ok (rendered order_42))
    /\ (RedisLock = RedisLock -> 0 + LOCK_TTL redis_settings < 2000000 ->
        r1 = Raise LockNotOwnedError)
    /\ timed_wrapped_view redis_settings create_order 5000000 5001000
         [ORequest (post_order "item=x")] [] w1 = Some (Ok (rendered order_42), w2)
    /\ view_calls (log w2) = S (view_calls (log fresh_world))
    /\ app w2 = app w1 /\ caches w2 = caches w1.
Proof.
  apply (cache_storage_replays redis_settings create_order 0 2000000 5000000 5001000
           [ORequest (post_order "item=x")] [] fresh_world (order_job "item=x")
           RedisLock (CacheStorage "default") order_42).
  - intros v. reflexivity.
  - vm_compute. reflexivity.
  - reflexivity.
  - intros _. split; [reflexivity|]. by exists 300000.
  - reflexivity.
  - apply fresh_world_rlocks_fresh.
  - apply not_elem_of_nil.
  - vm_compute. reflexivity.
  - vm_compute. reflexivity.
  - reflexivity.
  - reflexivity.
  - right. reflexivity.
Defined.

(** A view that outlasts the lease of five minutes: the order is created and
    the response stored, but the caller gets LockNotOwnedError; the retry is
    answered from the record, and one order exists. *)
Example lease_expiry_after_success :
  exists w1 w2,
    timed_wrapped_view redis_settings create_order 0 301000000
      [ORequest (post_order "item=x")] [] fresh_world
    = Some (Raise LockNotOwnedError, w1)
    /\ app w1 = 1%nat /\ held w1 = []
    /\ timed_wrapped_view redis_settings create_order 302000000 302001000
         [ORequest (post_order "item=x")] [] w1 = Some (Ok order_42, w2)
    /\ app w2 = 1%nat.
Proof.
  eexists _, _. split; [|split; [|split; [|split]]]; vm_compute; reflexivity.
Qed.


Lemma conflict_bad_response_witness :
  exists w',
    wrapped_view function_settings create_order 5
      [ORequest (post_order "item=y")] [] world_with_record
    = Some (Ok (bad_response function_settings conflict_message), w')
    /\ caches w' = caches world_with_record /\ app w' = app world_with_record
    /\ held w' = held world_with_record
    /\ view_calls (log w') = view_calls (log world_with_record).
Proof.
  apply (conflict_bad_response function_settings create_order 5
           [ORequest (post_order "item=y")] [] world_with_record
           (order_job "item=y") ThreadLock (CacheStorage "default")
           "sha256(item=x)" order_42).
  - vm_compute. reflexivity.
  - reflexivity.
  - apply not_elem_of_nil.
  - vm_compute. reflexivity.
  - vm_compute. reflexivity.
  - discriminate.
  - reflexivity.
Defined.

Lemma missing_key_bad_response_witness :
  wrapped_view function_settings create_order 0 [ORequest post_empty_key] []
    fresh_world
  = Some (Ok (bad_response function_settings missing_key_message), fresh_world).
Proof.
  apply (missing_key_bad_response function_settings create_order 0
           [ORequest post_empty_key] [] fresh_world None post_empty_key).
  - reflexivity.
  - vm_compute. intros Hin. repeat (apply elem_of_cons in Hin as [Hin|Hin]; [discriminate|]).
    by apply elem_of_nil in Hin.
  - vm_compute. reflexivity.
  - reflexivity.
Defined.

Lemma keyed_request_default_function_raises_witness :
  wrapped_view no_user_settings create_order 0 [ORequest (post_order "item=x")] []
    fresh_world
  = Some (Raise TypeError, fresh_world).
Proof.
  apply (keyed_request_default_function_raises no_user_settings create_order 0
           [ORequest (post_order "item=x")] [] fresh_world None (post_order "item=x")).
  - reflexivity.
  - vm_compute. intros Hin. repeat (apply elem_of_cons in Hin as [Hin|Hin]; [discriminate|]).
    by apply elem_of_nil in Hin.
  - vm_compute. reflexivity.
  - reflexivity.
Defined.

End MoreExamples.
